(** * apeye: client-side credential manager

    A shallow embedding of the reveal / copy / mass-add / delete handlers of
    the React components (ApiKeysTable, MainDashboard, WebsitePage,
    MassAddModal) together with the field-encryption contract they call.

    JavaScript strings are modelled as [string] (the bytes of their UTF-8
    encoding), [Set<string>] as [gset string], [Map<string, _>] as
    [gmap string _].  An [async] handler is a function from the state it was
    rendered with to an outcome (resolved or rejected) and the state after
    all of its [setState] calls.  Events are handled one at a time: a handler
    runs to its end, un-awaited calls included, before the next event is
    looked at, so the state a handler closes over is the current one. *)

From Stdlib Require Import String Ascii List Bool NArith Lia.
From stdpp Require Import base gmap strings list pretty.

Local Open Scope string_scope.

(** ** JavaScript string helpers *)

Module Js.

(** [s ? a : b] on a string: the empty string is the only falsy one. *)
Definition truthy (s : string) : bool :=
  match s with
  | EmptyString => false
  | String _ _ => true
  end.

(** [a || b] on strings. *)
Definition or_else (a b : string) : string := if truthy a then a else b.

(** White space and line terminators as [String.prototype.trim] sees
    them, by the bytes of their UTF-8 encoding.  One byte: TAB, LF, VT,
    FF, CR, SPACE. *)
Definition white_space1 (a : N) : bool :=
  ((9 <=? a) && (a <=? 13) || (a =? 32))%N.

(** Two bytes: U+00A0. *)
Definition white_space2 (a b : N) : bool :=
  ((a =? 194) && (b =? 160))%N.

(** Three bytes: U+1680, U+2000..U+200A, U+2028, U+2029, U+202F, U+205F,
    U+3000, U+FEFF. *)
Definition white_space3 (a b c : N) : bool :=
  ((a =? 225) && (b =? 154) && (c =? 128)
   || (a =? 226) && (b =? 128)
      && ((128 <=? c) && (c <=? 138) || (c =? 168) || (c =? 169)
          || (c =? 175))
   || (a =? 226) && (b =? 129) && (c =? 159)
   || (a =? 227) && (b =? 128) && (c =? 128)
   || (a =? 239) && (b =? 187) && (c =? 191))%N.

(** Drops the white space at the front of [s]; with [backwards] the bytes
    of [s] come last first. *)
Fixpoint drop_white_space (backwards : bool) (s : string) : string :=
  match s with
  | EmptyString => EmptyString
  | String x s1 =>
      let a := N_of_ascii x in
      if white_space1 a then drop_white_space backwards s1
      else
        match s1 with
        | EmptyString => s
        | String y s2 =>
            let b := N_of_ascii y in
            if (if backwards then white_space2 b a else white_space2 a b)
            then drop_white_space backwards s2
            else
              match s2 with
              | EmptyString => s
              | String z s3 =>
                  let c := N_of_ascii z in
                  if (if backwards then white_space3 c b a
                      else white_space3 a b c)
                  then drop_white_space backwards s3
                  else s
              end
        end
  end.

Definition trimStart (s : string) : string := drop_white_space false s.

Definition trimEnd (s : string) : string :=
  String.rev (drop_white_space true (String.rev s)).

Definition trim (s : string) : string := trimEnd (trimStart s).

End Js.

(** ** Field encryption utility *)

Inductive CryptoError : Type :=
| EncryptionError
| DecryptionError.

Module Encryption.

(** The key material of one key instance. *)
Definition Key : Type := ascii.

Definition xor_ascii (a b : ascii) : ascii :=
  match a, b with
  | Ascii a0 a1 a2 a3 a4 a5 a6 a7, Ascii b0 b1 b2 b3 b4 b5 b6 b7 =>
      Ascii (xorb a0 b0) (xorb a1 b1) (xorb a2 b2) (xorb a3 b3)
            (xorb a4 b4) (xorb a5 b5) (xorb a6 b6) (xorb a7 b7)
  end.

(** The body transformation: each code unit combined with a pad. *)
Fixpoint mask (pad : ascii) (s : string) : string :=
  match s with
  | EmptyString => EmptyString
  | String c s' => String (xor_ascii c pad) (mask pad s')
  end.

(** The check value that binds a ciphertext to the key and nonce it was
    made with. *)
Definition tag (k : Key) (nonce : ascii) : ascii := xor_ascii k nonce.

(** Modelled from the spec: [src/lib/encryption.ts] ([encrypt]) is not
    among the sources.  The spec gives
    [encrypt(plaintext: string) -> ciphertext: string], not required to be
    deterministic across calls (it may embed a nonce), failing with an
    EncryptionError when the process-wide key is unavailable.  The model
    makes the nonce an explicit argument and lays the ciphertext out as
    nonce, check value, masked body.  A [string] is already a sequence of
    bytes, so every input can be encoded. *)
Definition encrypt (key : option Key) (nonce : ascii) (plaintext : string)
  : CryptoError + string :=
  match key with
  | None => inl EncryptionError
  | Some k => inr (String nonce (String (tag k nonce) (mask k plaintext)))
  end.

(** Modelled from the spec: [src/lib/encryption.ts] ([decrypt]) is not
    among the sources.  The spec gives
    [decrypt(ciphertext: string) -> plaintext: string], failing with a
    DecryptionError if the ciphertext is malformed or was produced with a
    different key. *)
Definition decrypt (key : option Key) (ciphertext : string)
  : CryptoError + string :=
  match key, ciphertext with
  | Some k, String nonce (String t body) =>
      if Ascii.eqb t (tag k nonce) then inr (mask k body)
      else inl DecryptionError
  | _, _ => inl DecryptionError
  end.

(** [c] is a ciphertext some call of [encrypt] under key [k] can return. *)
Definition produced_by (k : Key) (c : string) : Prop :=
  exists nonce plaintext, encrypt (Some k) nonce plaintext = inr c.

End Encryption.

(** ** Data model *)

(** A stored credential record: one row of the [api_keys] table. *)
Module ApiKey.
Record t : Type := mk {
  id : string;
  user_id : string;
  service_name : string;
  email_username : string;
  encrypted_password : string;
  encrypted_api_key : string;
  notes : string;
  tags : list string;
  created_at : N;
  updated_at : N
}.
End ApiKey.

(** One row of the mass-add form ([interface ApiKeyRow]). *)
Module ApiKeyRow.
Record t : Type := mk {
  id : string;
  email_username : string;
  password : string;
  api_key : string;
  notes : string
}.
End ApiKeyRow.

(** One element of the array handed to [insert]. *)
Module Payload.
Record t : Type := mk {
  user_id : string;
  service_name : string;
  email_username : string;
  encrypted_password : string;
  encrypted_api_key : string;
  notes : string;
  tags : list string
}.
End Payload.

(** The two secret fields of a record: ['key' | 'password']. *)
Inductive Field : Type := FKey | FPassword.

Global Instance Field_eq_dec : EqDecision Field.
Proof. solve_decision. Defined.

(** ** Persistence layer *)

Inductive Column : Type := ColServiceName | ColCreatedAt.

(** A [select('*')] chain: an optional [.eq('service_name', v)] and the
    [.order(column, {ascending})] calls in the order they are written. *)
Record Query : Type := mkQuery {
  q_service : option string;
  q_order : list (Column * bool)
}.

Module Backend.

(** Modelled from the spec: the persistence layer ([src/lib/supabase.ts]
    and the hosted store behind it) is an external collaborator.  The spec
    gives [select(table, filter, order) -> rows],
    [insert(table, rows) -> inserted rows | error],
    [delete(table, id) -> success | error], and rows owner-scoped
    automatically by the collaborator.  [user] is the signed-in user of
    the session, [clock] and [serial] feed the server-assigned timestamps
    and identifiers. *)
Record t : Type := mk {
  api_keys : list ApiKey.t;
  user : option string;
  clock : N;
  serial : N
}.

Definition owned (b : t) (r : ApiKey.t) : bool :=
  match user b with
  | Some u => String.eqb (ApiKey.user_id r) u
  | None => false
  end.

Definition compare_on (c : Column) (x y : ApiKey.t) : comparison :=
  match c with
  | ColServiceName =>
      String.compare (ApiKey.service_name x) (ApiKey.service_name y)
  | ColCreatedAt => N.compare (ApiKey.created_at x) (ApiKey.created_at y)
  end.

(** [x] may stand before [y] under the order keys, first key first. *)
Fixpoint before (keys : list (Column * bool)) (x y : ApiKey.t) : bool :=
  match keys with
  | [] => true
  | (c, ascending) :: keys' =>
      match compare_on c x y with
      | Eq => before keys' x y
      | Lt => ascending
      | Gt => negb ascending
      end
  end.

Fixpoint insert_sorted (keys : list (Column * bool)) (x : ApiKey.t)
    (l : list ApiKey.t) : list ApiKey.t :=
  match l with
  | [] => [x]
  | y :: l' =>
      if before keys x y then x :: l else y :: insert_sorted keys x l'
  end.

Definition order_by (keys : list (Column * bool)) (l : list ApiKey.t)
  : list ApiKey.t :=
  foldr (insert_sorted keys) [] l.

Definition matches (q : Query) (r : ApiKey.t) : bool :=
  match q_service q with
  | Some s => String.eqb (ApiKey.service_name r) s
  | None => true
  end.

(** The rows a list query returns for the session's user. *)
Definition select (q : Query) (b : t) : list ApiKey.t :=
  order_by (q_order q)
    (List.filter (fun r => owned b r && matches q r) (api_keys b)).

Definition store (b : t) (n : N) (p : Payload.t) : ApiKey.t :=
  ApiKey.mk (pretty (serial b + n)%N)
    (Payload.user_id p) (Payload.service_name p)
    (Payload.email_username p) (Payload.encrypted_password p)
    (Payload.encrypted_api_key p) (Payload.notes p) (Payload.tags p)
    (clock b) (clock b).

Definition insert (rows : list Payload.t) (b : t) : t :=
  mk (api_keys b ++ imap (fun i p => store b (N.of_nat i) p) rows)
     (user b) (N.succ (clock b)) (serial b + N.of_nat (length rows))%N.

(** [delete().eq('id', id)]: removes the session user's rows with this
    identifier. *)
Definition delete (id : string) (b : t) : t :=
  mk (List.filter (fun r => negb (owned b r && String.eqb (ApiKey.id r) id))
        (api_keys b))
     (user b) (N.succ (clock b)) (serial b).

End Backend.

(** ** The world around a component *)

(** Calls a handler makes to its collaborators, oldest first. *)
Inductive Call : Type :=
| CallDecrypt (ciphertext : string)
| CallEncrypt (plaintext : string)
| CallWriteText (text : string)
| CallSelect (q : Query)
| CallInsert (rows : list Payload.t)
| CallDelete (id : string)
| CallConsoleError (message : string)
| CallOnSuccess
| CallOnClose.

(** Callbacks handed to [setTimeout]. *)
Inductive Callback : Type :=
| ClearCopied.     (* () => setCopiedId(null) *)

Record World : Type := mkWorld {
  backend : Backend.t;
  (** outcome of the coming persistence requests: [Some msg] is a
      PersistenceError; an exhausted script serves every request *)
  faults : list (option string);
  clipboard : string;
  (** whether [navigator.clipboard.writeText] is permitted *)
  clipboardGranted : bool;
  (** pending timers: remaining delay in milliseconds and callback *)
  timers : list (N * Callback);
  trace : list Call
}.

(** Values a promise can be rejected with. *)
Inductive Exn : Type :=
| CryptoExn (e : CryptoError)
| ErrorExn (message : string)         (* new Error(message) *)
| PersistenceExn (message : string)   (* the error object of a request *)
| ClipboardExn.

(** ** Handlers: state and rejection *)

Module Async.

(** An asynchronous handler over component state [S]: it starts from the
    state and world it was invoked in and ends resolved with a value or
    rejected, with the state and world it has reached by then. *)
Definition t (S A : Type) : Type := S * World -> (Exn + A) * (S * World).

Definition ret {S A} (a : A) : t S A := fun s => (inr a, s).

Definition bind {S A B} (m : t S A) (k : A -> t S B) : t S B :=
  fun s =>
    match m s with
    | (inr a, s') => k a s'
    | (inl e, s') => (inl e, s')
    end.

Definition throw {S A} (e : Exn) : t S A := fun s => (inl e, s).

(** [try { m } catch (err) { h err }] *)
Definition try_catch {S A} (m : t S A) (h : Exn -> t S A) : t S A :=
  fun s =>
    match m s with
    | (inr a, s') => (inr a, s')
    | (inl e, s') => h e s'
    end.

(** [try { m } finally { f }] *)
Definition finally {S A} (m : t S A) (f : t S unit) : t S A :=
  fun s =>
    match m s with
    | (r, s') =>
        match f s' with
        | (inr _, s'') => (r, s'')
        | (inl e, s'') => (inl e, s'')
        end
    end.

(** The state the handler was rendered with. *)
Definition state {S} : t S S := fun s => (inr (fst s), s).

(** A [setState] call. *)
Definition set {S} (f : S -> S) : t S unit :=
  fun s => (inr tt, (f (fst s), snd s)).

Definition world {S} : t S World := fun s => (inr (snd s), s).

Definition act {S} (f : World -> World) : t S unit :=
  fun s => (inr tt, (fst s, f (snd s))).

Definition log {S} (c : Call) : t S unit :=
  act (fun w => mkWorld (backend w) (faults w) (clipboard w)
                  (clipboardGranted w) (timers w) (trace w ++ [c])).

End Async.

(** [x ← m; k] and [m;; k] sequence the steps of a handler. *)
Global Instance Async_ret {S} : MRet (Async.t S) := @Async.ret S.
Global Instance Async_bind {S} : MBind (Async.t S) :=
  fun A B k m => Async.bind m k.


(** ** Collaborators as handler steps *)

Module Env.

Definition with_backend (f : Backend.t -> Backend.t) (w : World) : World :=
  mkWorld (f (backend w)) (faults w) (clipboard w) (clipboardGranted w)
    (timers w) (trace w).

Definition with_faults (fs : list (option string)) (w : World) : World :=
  mkWorld (backend w) fs (clipboard w) (clipboardGranted w) (timers w)
    (trace w).

Definition with_clipboard (text : string) (w : World) : World :=
  mkWorld (backend w) (faults w) text (clipboardGranted w) (timers w)
    (trace w).

Definition with_timers (ts : list (N * Callback)) (w : World) : World :=
  mkWorld (backend w) (faults w) (clipboard w) (clipboardGranted w) ts
    (trace w).

Section Steps.
Context {S : Type}.

(** [await f(arg)] for the encryption utility: the call is made, and a
    failure rejects the awaiting handler. *)
Definition await_crypto (c : Call) (r : CryptoError + string)
  : Async.t S string :=
  Async.log c;;
  match r with
  | inr v => mret v
  | inl e => Async.throw (CryptoExn e)
  end.

(** [await navigator.clipboard.writeText(text)] *)
Definition writeText (text : string) : Async.t S unit :=
  w ← Async.world;
  if clipboardGranted w
  then Async.act (with_clipboard text);; Async.log (CallWriteText text)
  else Async.throw ClipboardExn.

(** [setTimeout(cb, ms)] *)
Definition setTimeout (cb : Callback) (ms : N) : Async.t S unit :=
  Async.act (fun w => with_timers (timers w ++ [(ms, cb)]) w).

(** The outcome the network has in store for the next request. *)
Definition request : Async.t S (option string) :=
  w ← Async.world;
  match faults w with
  | [] => mret None
  | o :: rest => Async.act (with_faults rest);; mret o
  end.

(** [(await supabase.auth.getUser()).data.user], by its id. *)
Definition getUser : Async.t S (option string) :=
  w ← Async.world; mret (Backend.user (backend w)).

(** [await supabase.from('api_keys').select('*')...]: [{error}] or
    [{data}]. *)
Definition select (q : Query) : Async.t S (string + list ApiKey.t) :=
  Async.log (CallSelect q);;
  o ← request;
  match o with
  | Some msg => mret (inl msg)
  | None => w ← Async.world; mret (inr (Backend.select q (backend w)))
  end.

(** [await supabase.from('api_keys').insert(rows)]: its [error]. *)
Definition insert (rows : list Payload.t) : Async.t S (option string) :=
  Async.log (CallInsert rows);;
  o ← request;
  match o with
  | Some msg => mret (Some msg)
  | None => Async.act (with_backend (Backend.insert rows));; mret None
  end.

(** [await supabase.from('api_keys').delete().eq('id', id)]: its
    [error]. *)
Definition delete (id : string) : Async.t S (option string) :=
  Async.log (CallDelete id);;
  o ← request;
  match o with
  | Some msg => mret (Some msg)
  | None => Async.act (with_backend (Backend.delete id));; mret None
  end.

End Steps.

(** The world after further calls. *)
Definition logged (cs : list Call) (w : World) : World :=
  mkWorld (backend w) (faults w) (clipboard w) (clipboardGranted w)
    (timers w) (trace w ++ cs).

(** The [k]-th coming persistence request is served, not failed. *)
Definition served (k : nat) (w : World) : bool :=
  match faults w !! k with
  | Some (Some _) => false
  | _ => true
  end.

End Env.

(** ** Reveal / copy state and the record list *)

(** The cached plaintexts of one record: [{ key: string; password: string }]. *)
Module Decrypted.
Record t : Type := mk { key : string; password : string }.

Definition get (f : Field) (d : t) : string :=
  match f with FKey => key d | FPassword => password d end.

(** [{ ...d, [field]: v }] *)
Definition set (f : Field) (v : string) (d : t) : t :=
  match f with
  | FKey => mk v (password d)
  | FPassword => mk (key d) v
  end.
End Decrypted.

(** The [useState] cells of MainDashboard.  ApiKeysTable holds the last four
    and WebsitePage these plus [isModalOpen]; the bodies of
    [toggleVisibility] and [copyToClipboard] are the same text in the three
    components, and [handleDelete] is the same text in Dashboard,
    MainDashboard and WebsitePage. *)
Module Page.
Record t : Type := mk {
  apiKeys : list ApiKey.t;
  loading : bool;
  searchQuery : string;
  visibleKeys : gset string;
  visiblePasswords : gset string;
  decryptedData : gmap string Decrypted.t;
  copiedId : option string
}.

Definition initial : t := mk [] true "" ∅ ∅ ∅ None.

Definition setApiKeys (v : list ApiKey.t) (s : t) : t :=
  mk v (loading s) (searchQuery s) (visibleKeys s) (visiblePasswords s)
     (decryptedData s) (copiedId s).
Definition setLoading (v : bool) (s : t) : t :=
  mk (apiKeys s) v (searchQuery s) (visibleKeys s) (visiblePasswords s)
     (decryptedData s) (copiedId s).
Definition setVisibleKeys (v : gset string) (s : t) : t :=
  mk (apiKeys s) (loading s) (searchQuery s) v (visiblePasswords s)
     (decryptedData s) (copiedId s).
Definition setVisiblePasswords (v : gset string) (s : t) : t :=
  mk (apiKeys s) (loading s) (searchQuery s) (visibleKeys s) v
     (decryptedData s) (copiedId s).
Definition setDecryptedData (v : gmap string Decrypted.t) (s : t) : t :=
  mk (apiKeys s) (loading s) (searchQuery s) (visibleKeys s)
     (visiblePasswords s) v (copiedId s).
Definition setCopiedId (v : option string) (s : t) : t :=
  mk (apiKeys s) (loading s) (searchQuery s) (visibleKeys s)
     (visiblePasswords s) (decryptedData s) v.

(** The visibility set of a field. *)
Definition visible (f : Field) (s : t) : gset string :=
  match f with FKey => visibleKeys s | FPassword => visiblePasswords s end.
Definition setVisible (f : Field) : gset string -> t -> t :=
  match f with FKey => setVisibleKeys | FPassword => setVisiblePasswords end.
End Page.

Module MainDashboard.
Import Page.

(** The list query of [fetchApiKeys] in MainDashboard. *)
Definition listQuery : Query :=
  mkQuery None [(ColServiceName, true); (ColCreatedAt, false)].

Section Handlers.
(** [decrypt] of the encryption utility, and the user's answer to a
    [confirm] prompt. *)
Variable decrypt : string -> CryptoError + string.
Variable confirm : string -> bool.
(** The select chain of the page's [fetchApiKeys]. *)
Variable query : Query.

Definition toggleVisibility (id : string) (field : Field)
    (encrypted : string) : Async.t Page.t unit :=
  st ← Async.state;
  let isKey := bool_decide (field = FKey) in
  let visibleSet := if isKey then visibleKeys st else visiblePasswords st in
  let setVisibleSet :=
    if isKey then setVisibleKeys else setVisiblePasswords in
  if decide (id ∈ visibleSet) then
    let newSet := visibleSet ∖ {[id]} in
    Async.set (setVisibleSet newSet)
  else
    (if decide (is_Some (decryptedData st !! id)) then mret tt
     else
       decrypted ← Env.await_crypto (CallDecrypt encrypted)
                     (decrypt encrypted);
       let currentData :=
         default (Decrypted.mk "" "") (decryptedData st !! id) in
       Async.set (setDecryptedData
                    (<[id := Decrypted.set field decrypted currentData]>
                       (decryptedData st))));;
    let newSet := visibleSet ∪ {[id]} in
    Async.set (setVisibleSet newSet).

Definition copyToClipboard (text : string) (id : string)
  : Async.t Page.t unit :=
  decrypted ← Env.await_crypto (CallDecrypt text) (decrypt text);
  Env.writeText decrypted;;
  Async.set (setCopiedId (Some id));;
  Env.setTimeout ClearCopied 2000.

Definition fetchApiKeys : Async.t Page.t unit :=
  Async.set (setLoading true);;
  r ← Env.select query;
  match r with
  | inl _ => Async.log (CallConsoleError "Error fetching API keys:")
  | inr data => Async.set (setApiKeys data)
  end;;
  Async.set (setLoading false).

Definition handleDelete (id : string) : Async.t Page.t unit :=
  if negb (confirm "Are you sure you want to delete this API key?")
  then mret tt
  else
    error ← Env.delete id;
    match error with
    | Some _ => Async.log (CallConsoleError "Error deleting API key:")
    | None => fetchApiKeys
    end.

End Handlers.

(** What the API-key cell of a record shows. *)
Definition keyCell (st : Page.t) (k : ApiKey.t) : string :=
  if decide (ApiKey.id k ∈ visibleKeys st)
  then Js.or_else
         (from_option Decrypted.key "" (decryptedData st !! ApiKey.id k))
         "sk-***"
  else "sk-*********************".

(** What the password cell of a record shows. *)
Definition passwordCell (st : Page.t) (k : ApiKey.t) : string :=
  if Js.truthy (ApiKey.encrypted_password k) then
    if decide (ApiKey.id k ∈ visiblePasswords st)
    then Js.or_else
           (from_option Decrypted.password ""
              (decryptedData st !! ApiKey.id k))
           "••••••••"
    else "••••••••"
  else "-".

Definition cell (f : Field) : Page.t -> ApiKey.t -> string :=
  match f with FKey => keyCell | FPassword => passwordCell end.

(** The callback of a timer that has come due. *)
Definition run_callback (cb : Callback) (st : Page.t) : Page.t :=
  match cb with
  | ClearCopied => setCopiedId None st
  end.

(** [ms] milliseconds pass with no other event: the timers that come due
    run, in the order they were set. *)
Definition elapse (ms : N) (s : Page.t * World) : Page.t * World :=
  let due := List.filter (fun t => (fst t <=? ms)%N) (timers (snd s)) in
  let pending :=
    List.filter (fun t => negb (fst t <=? ms)%N) (timers (snd s)) in
  (foldl (fun st t => run_callback (snd t) st) (fst s) due,
   Env.with_timers (map (fun t => ((fst t - ms)%N, snd t)) pending) (snd s)).

(** The ciphertexts a trace passes to [decrypt]. *)
Definition decrypts (tr : list Call) : list string :=
  omap (fun c => match c with CallDecrypt x => Some x | _ => None end) tr.

(** The texts a trace writes to the clipboard. *)
Definition written (tr : list Call) : list string :=
  omap (fun c => match c with CallWriteText x => Some x | _ => None end) tr.

(** [copyToClipboard] serves a record from the cache: when a plaintext is
    cached for the record, copying makes no call of [decrypt]. *)
Definition copy_served_from_cache (decrypt : string -> CryptoError + string)
    (st : Page.t) (w : World) (record : string) (text id : string) : Prop :=
  is_Some (decryptedData st !! record) ->
  decrypts (trace (snd (snd (copyToClipboard decrypt text id (st, w)))))
  = decrypts (trace w).

End MainDashboard.

(** ** Mass-add form *)

Module MassAddModal.

Record State : Type := mkState {
  rows : list ApiKeyRow.t;
  loading : bool;
  error : string
}.

Definition setRows (v : list ApiKeyRow.t) (s : State) : State :=
  mkState v (loading s) (error s).
Definition setLoading (v : bool) (s : State) : State :=
  mkState (rows s) v (error s).
Definition setError (v : string) (s : State) : State :=
  mkState (rows s) (loading s) v.

Definition emptyRow (uuid : string) : ApiKeyRow.t :=
  ApiKeyRow.mk uuid "" "" "" "".

(** The state of a freshly opened form; [uuid] is the value of
    [crypto.randomUUID()]. *)
Definition initial (uuid : string) : State :=
  mkState [emptyRow uuid] false "".

Definition addRow (uuid : string) (s : State) : State :=
  setRows (rows s ++ [emptyRow uuid]) s.

Definition removeRow (id : string) (s : State) : State :=
  if (length (rows s) =? 1)%nat then s
  else setRows
         (List.filter (fun row => negb (String.eqb (ApiKeyRow.id row) id))
            (rows s)) s.

(** The editable fields: [keyof ApiKeyRow]. *)
Inductive RowField : Type :=
  RId | REmailUsername | RPassword | RApiKey | RNotes.

Definition withField (f : RowField) (value : string) (row : ApiKeyRow.t)
  : ApiKeyRow.t :=
  match f with
  | RId =>
      ApiKeyRow.mk value (ApiKeyRow.email_username row)
        (ApiKeyRow.password row) (ApiKeyRow.api_key row)
        (ApiKeyRow.notes row)
  | REmailUsername =>
      ApiKeyRow.mk (ApiKeyRow.id row) value (ApiKeyRow.password row)
        (ApiKeyRow.api_key row) (ApiKeyRow.notes row)
  | RPassword =>
      ApiKeyRow.mk (ApiKeyRow.id row) (ApiKeyRow.email_username row) value
        (ApiKeyRow.api_key row) (ApiKeyRow.notes row)
  | RApiKey =>
      ApiKeyRow.mk (ApiKeyRow.id row) (ApiKeyRow.email_username row)
        (ApiKeyRow.password row) value (ApiKeyRow.notes row)
  | RNotes =>
      ApiKeyRow.mk (ApiKeyRow.id row) (ApiKeyRow.email_username row)
        (ApiKeyRow.password row) (ApiKeyRow.api_key row) value
  end.

Definition updateRow (id : string) (f : RowField) (value : string)
    (s : State) : State :=
  setRows
    (map (fun row =>
            if String.eqb (ApiKeyRow.id row) id then withField f value row
            else row)
       (rows s)) s.

(** The rows [handleSubmit] keeps: [row.api_key.trim()] is truthy. *)
Definition valid (row : ApiKeyRow.t) : bool :=
  Js.truthy (Js.trim (ApiKeyRow.api_key row)).

(** The value [Promise.all] resolves with once every task has settled: the
    list of their values, when none of them was rejected. *)
Fixpoint collect {E A} (rs : list (E + A)) : E + list A :=
  match rs with
  | [] => inr []
  | r :: rest =>
      match r, collect rest with
      | inl e, _ => inl e
      | inr _, inl e => inl e
      | inr a, inr l => inr (a :: l)
      end
  end.

(** *** Asynchronous callbacks under [Promise.all] *)

(** A call of an [async] function, as far as it has got: it has settled
    with a value or a rejection, or it has made the call [c] and waits at
    an [await] for its outcome [r], to go on with [k]. *)
Inductive Task (A : Type) : Type :=
| Settled (r : Exn + A)
| Awaiting (c : Call) (r : CryptoError + string) (k : string -> Task A).
Arguments Settled {A} r.
Arguments Awaiting {A} c r k.

(** The call a task has just made. *)
Definition started {A} (t : Task A) : list Call :=
  match t with
  | Settled _ => []
  | Awaiting c _ _ => [c]
  end.

(** The awaited call settles: a failure rejects the task, a value lets it
    run on to its next [await] or to its end. *)
Definition resume {A} (t : Task A) : Task A :=
  match t with
  | Settled r => Settled r
  | Awaiting _ (inl e) _ => Settled (inl (CryptoExn e))
  | Awaiting _ (inr v) k => k v
  end.

(** The task once [n] of its awaited calls have settled. *)
Fixpoint after {A} (n : nat) (t : Task A) : Task A :=
  match n with
  | O => t
  | S n' => after n' (resume t)
  end.

(** How many awaited calls settle before the task does. *)
Fixpoint awaits {A} (t : Task A) : nat :=
  match t with
  | Settled _ => 0
  | Awaiting _ (inl _) _ => 1
  | Awaiting _ (inr v) k => S (awaits (k v))
  end.

(** What the task settles with in the end. *)
Fixpoint outcome {A} (t : Task A) : Exn + A :=
  match t with
  | Settled r => r
  | Awaiting _ (inl e) _ => inl (CryptoExn e)
  | Awaiting _ (inr v) k => outcome (k v)
  end.

(** The rejection of a task that has been rejected. *)
Definition rejection {A} (t : Task A) : option Exn :=
  match t with
  | Settled (inl e) => Some e
  | _ => None
  end.

(** The number of rounds after which every task has settled. *)
Definition rounds {A} (tasks : list (Task A)) : nat :=
  list_max (map awaits tasks).

(** [tasks.map(async ...)] calls the callbacks one after the other, and
    each runs up to its first [await] before the next is called; the calls
    they wait for settle in the order they were made, and each task then
    runs up to its next [await].  So the tasks advance in rounds: the list
    gives the tasks as they stand after no, one, two, ... such rounds, up
    to the round in which the last of them settles. *)
Definition stages {A} (tasks : list (Task A)) : list (list (Task A)) :=
  map (fun n => map (after n) tasks) (seq 0 (S (rounds tasks))).

(** The calls the tasks make, in the order they are made: round by round,
    and within a round in the order of the tasks.  A rejected task makes
    no further call; the others run on whatever becomes of it. *)
Definition allCalls {A} (tasks : list (Task A)) : list Call :=
  flat_map (flat_map started) (stages tasks).

(** The rejection that comes first in time, if any task is rejected. *)
Definition allRejected {A} (tasks : list (Task A)) : option Exn :=
  head (flat_map (omap rejection) (stages tasks)).

(** What [Promise.all(tasks)] settles with: the first rejection in time,
    or else the values of the tasks in the order of the tasks. *)
Definition allOutcome {A} (tasks : list (Task A)) : Exn + list A :=
  match allRejected tasks with
  | Some e => inl e
  | None => collect (map outcome tasks)
  end.

(** [await Promise.all(tasks)].  The trace takes the calls of all tasks,
    those included that a task still makes after another one has been
    rejected. *)
Definition all {S A} (tasks : list (Task A)) : Async.t S (list A) :=
  Async.act (Env.logged (allCalls tasks));;
  match allOutcome tasks with
  | inl e => Async.throw e
  | inr values => mret values
  end.

Section Handlers.
(** What a call of [encrypt] draws at random. *)
Variable Nonce : Type.
(** [encrypt] of the encryption utility, by the nonce the call draws. *)
Variable encrypt : Nonce -> string -> CryptoError + string.
(** The nonce drawn by the call for a field of the [i]-th kept row. *)
Variable nonce_at : nat -> Field -> Nonce.
(** For a rejection value made outside this component, its [message] if
    it is an instance of [Error]. *)
Variable foreign_message : Exn -> option string.
(** The [serviceName] prop. *)
Variable serviceName : string.

(** [err instanceof Error ? err.message : 'An error occurred'] *)
Definition message_of (err : Exn) : string :=
  match err with
  | ErrorExn message => message
  | _ => default "An error occurred" (foreign_message err)
  end.

(** The [validRows.map(async (row) => ...)] callback, called on the
    [i]-th kept row: [await encrypt(row.password)] when the password is
    truthy, then [await encrypt(row.api_key)], then the object literal. *)
Definition encryptRow (user_id : string) (i : nat) (row : ApiKeyRow.t)
  : Task Payload.t :=
  let finish (encrypted_password : string) :=
    Awaiting (CallEncrypt (ApiKeyRow.api_key row))
      (encrypt (nonce_at i FKey) (ApiKeyRow.api_key row))
      (fun encrypted_api_key =>
         Settled
           (inr (Payload.mk user_id serviceName
                   (ApiKeyRow.email_username row) encrypted_password
                   encrypted_api_key (ApiKeyRow.notes row) []))) in
  if Js.truthy (ApiKeyRow.password row)
  then Awaiting (CallEncrypt (ApiKeyRow.password row))
         (encrypt (nonce_at i FPassword) (ApiKeyRow.password row)) finish
  else finish "".

Definition handleSubmit : Async.t State unit :=
  Async.set (setError "");;
  Async.set (setLoading true);;
  Async.finally
    (Async.try_catch
       (user ← Env.getUser;
        match user with
        | None =>
            Async.throw
              (ErrorExn "You must be logged in to add API keys")
        | Some user_id =>
            st ← Async.state;
            let validRows := List.filter valid (rows st) in
            if (length validRows =? 0)%nat then
              Async.set (setError "At least one row must have an API key");;
              Async.set (setLoading false)
            else
              encryptedData ← all (imap (encryptRow user_id) validRows);
              insertError ← Env.insert encryptedData;
              match insertError with
              | Some msg => Async.throw (PersistenceExn msg)
              | None => Async.log CallOnSuccess;; Async.log CallOnClose
              end
        end)
       (fun err => Async.set (setError (message_of err))))
    (Async.set (setLoading false)).

End Handlers.

(** *** What [encryptRow] comes to, as values *)

Section Sealed.
Variable Nonce : Type.
Variable encrypt : Nonce -> string -> CryptoError + string.
Variable nonce_at : nat -> Field -> Nonce.
Variable serviceName : string.

(** The value [encryptRow] resolves with, or the failure it is rejected
    with. *)
Definition sealRow (user_id : string) (i : nat) (row : ApiKeyRow.t)
  : CryptoError + Payload.t :=
  match (if Js.truthy (ApiKeyRow.password row)
         then encrypt (nonce_at i FPassword) (ApiKeyRow.password row)
         else inr "") with
  | inl e => inl e
  | inr encrypted_password =>
      match encrypt (nonce_at i FKey) (ApiKeyRow.api_key row) with
      | inl e => inl e
      | inr encrypted_api_key =>
          inr (Payload.mk user_id serviceName
                 (ApiKeyRow.email_username row) encrypted_password
                 encrypted_api_key (ApiKeyRow.notes row) [])
      end
  end.

(** The call [encryptRow] makes at once: the password goes first when
    there is one. *)
Definition firstCall (row : ApiKeyRow.t) : Call :=
  CallEncrypt (if Js.truthy (ApiKeyRow.password row)
               then ApiKeyRow.password row else ApiKeyRow.api_key row).

(** The call [encryptRow] makes once its first call has settled: the key
    of a row whose password has been encrypted. *)
Definition secondCalls (i : nat) (row : ApiKeyRow.t) : list Call :=
  if Js.truthy (ApiKeyRow.password row) then
    match encrypt (nonce_at i FPassword) (ApiKeyRow.password row) with
    | inr _ => [CallEncrypt (ApiKeyRow.api_key row)]
    | inl _ => []
    end
  else [].

(** The calls the callbacks of [rows] make under [Promise.all]. *)
Definition rowCalls (rows : list ApiKeyRow.t) : list Call :=
  map firstCall rows ++ concat (imap secondCalls rows).
End Sealed.

(** The form can be submitted: the API Key input of every row is
    [required], so the browser raises the submit event only when no
    [api_key] is the empty string. *)
Definition submittable (st : State) : bool :=
  forallb (fun row => negb (String.eqb (ApiKeyRow.api_key row) ""))
    (rows st).

(** The secrets of a row that are to be encrypted. *)
Definition secrets (row : ApiKeyRow.t) : list string :=
  (if Js.truthy (ApiKeyRow.password row) then [ApiKeyRow.password row]
   else []) ++ [ApiKeyRow.api_key row].

(** The calls of a trace that hand rows to the persistence layer. *)
Definition inserts (tr : list Call) : list (list Payload.t) :=
  omap (fun c => match c with CallInsert rs => Some rs | _ => None end) tr.

(** The plaintexts a trace passes to [encrypt]. *)
Definition encrypted (tr : list Call) : list string :=
  omap (fun c => match c with CallEncrypt p => Some p | _ => None end) tr.

End MassAddModal.

(** ** Sample data *)

Module Sample.

(** A [decrypt] that knows two ciphertexts. *)
Definition decrypt (c : string) : CryptoError + string :=
  if String.eqb c "enc:sk-test-123" then inr "sk-test-123"
  else if String.eqb c "enc:hunter2" then inr "hunter2"
  else inl DecryptionError.

(** A signed-in session over an empty table, clipboard permitted, no
    timer pending, nothing called yet. *)
Definition world : World :=
  mkWorld (Backend.mk [] (Some "user-1") 0 0) [] "" true [] [].

Definition record : ApiKey.t :=
  ApiKey.mk "r1" "user-1" "OpenAI" "me@example.com" "enc:hunter2"
    "enc:sk-test-123" "" [] 0 0.

(** The page once the password of [record] has been revealed. *)
Definition passwordRevealed : Page.t :=
  Page.mk [record] false "" ∅ {["r1"]}
    {["r1" := Decrypted.mk "" "hunter2"]} None.

(** An [encrypt] that draws nothing and never fails. *)
Definition encrypt (_ : unit) (s : string) : CryptoError + string :=
  inr ("enc:" +:+ s).

(** No session. *)
Definition signedOut : World :=
  mkWorld (Backend.mk [] None 0 0) [] "" true [] [].

(** A form with three rows: a key with a password, a blank key, a key
    without password. *)
Definition form : MassAddModal.State :=
  MassAddModal.mkState
    [ApiKeyRow.mk "a" "me@example.com" "hunter2" "sk-one" "first";
     ApiKeyRow.mk "b" "" "secret" "   " "";
     ApiKeyRow.mk "c" "" "" "sk-abc" ""]
    false "".

Definition other : ApiKey.t :=
  ApiKey.mk "r2" "user-1" "Tavily" "" "" "enc:tvly" "" [] 1 1.

(** The same session over a table that holds [record] and [other]. *)
Definition stocked : World :=
  mkWorld (Backend.mk [record; other] (Some "user-1") 2 2) [] "" true [] [].

(** The page showing both. *)
Definition listed : Page.t :=
  Page.mk [record; other] false "" ∅ ∅ ∅ None.

(** The page once the API key of [record] has been revealed. *)
Definition keyRevealed : Page.t :=
  Page.mk [record] false "" {["r1"]} ∅
    {["r1" := Decrypted.mk "sk-test-123" ""]} None.

(** A form whose only row has an [api_key] of three spaces. *)
Definition blank : MassAddModal.State :=
  MassAddModal.mkState [ApiKeyRow.mk "row-1" "" "" "   " ""] false "".




(** The form and the world after a submission for service OpenAI under the
    model cipher, by the key instance at hand. *)
Definition submit (key : option Encryption.Key) (st : MassAddModal.State)
    (w : World) : MassAddModal.State * World :=
  snd (MassAddModal.handleSubmit ascii (Encryption.encrypt key)
         (fun _ _ => "n"%char) (fun _ => None) "OpenAI" (st, w)).

End Sample.

(** ** Searching and grouping the record list *)

Module Str.

(** [s.startsWith(p)] *)
Definition startsWith (s p : string) : bool := String.prefix p s.

(** [s.includes(sub)] *)
Fixpoint includes (s sub : string) : bool :=
  String.prefix sub s
  || match s with
     | EmptyString => false
     | String _ s' => includes s' sub
     end.

End Str.

Module Listing.

Section Search.
(** [String.prototype.toLowerCase]. *)
Variable toLowerCase : string -> string.

(** The predicate of [apiKeys.filter(...)] in MainDashboard. *)
Definition matchesSearch (searchQuery : string) (key : ApiKey.t) : bool :=
  negb (Js.truthy searchQuery)
  || Str.includes (toLowerCase (ApiKey.service_name key))
       (toLowerCase searchQuery)
  || Str.includes (toLowerCase (ApiKey.email_username key))
       (toLowerCase searchQuery)
  || Str.includes (toLowerCase (ApiKey.notes key)) (toLowerCase searchQuery).

Definition filteredKeys (st : Page.t) : list ApiKey.t :=
  List.filter (matchesSearch (Page.searchQuery st)) (Page.apiKeys st).

End Search.

(** The property names every object literal inherits from
    [Object.prototype]; each of them reads as a truthy value that has no
    [push]. *)
Definition prototypeKeys : list string :=
  ["constructor"; "__defineGetter__"; "__defineSetter__"; "hasOwnProperty";
   "__lookupGetter__"; "__lookupSetter__"; "isPrototypeOf";
   "propertyIsEnumerable"; "toString"; "valueOf"; "__proto__";
   "toLocaleString"].

(** The callback of [filteredKeys.reduce(..., {})]: [None] is the TypeError
    of calling [push] on an inherited property.  The groups are kept as a
    map; the order in which [Object.entries] lists them is not modelled. *)
Definition groupStep (groups : gmap string (list ApiKey.t)) (key : ApiKey.t)
  : option (gmap string (list ApiKey.t)) :=
  let service := ApiKey.service_name key in
  if bool_decide (service ∈ prototypeKeys) then None
  else
    match groups !! service with
    | None => Some (<[service := [key]]> groups)
    | Some keys => Some (<[service := (keys ++ [key])%list]> groups)
    end.

Fixpoint reduce (keys : list ApiKey.t) (groups : gmap string (list ApiKey.t))
  : option (gmap string (list ApiKey.t)) :=
  match keys with
  | [] => Some groups
  | key :: rest =>
      match groupStep groups key with
      | None => None
      | Some groups' => reduce rest groups'
      end
  end.

Definition websiteGroups (keys : list ApiKey.t)
  : option (gmap string (list ApiKey.t)) :=
  reduce keys ∅.

(** The records of one service, in list order. *)
Definition ofService (service : string) (keys : list ApiKey.t)
  : list ApiKey.t :=
  List.filter (fun key => String.eqb (ApiKey.service_name key) service) keys.

(** The groups built so far hold, for each service, its records among the
    keys consumed so far. *)
Definition grouped (consumed : list ApiKey.t)
    (groups : gmap string (list ApiKey.t)) : Prop :=
  forall s, groups !! s
            = match ofService s consumed with [] => None | l => Some l end.

End Listing.

(** ** Navigation bar *)

Module Navigation.

(** [cycleTheme]: the theme handed to [setTheme]. *)
Definition cycleTheme (theme : string) : string :=
  if String.eqb theme "light" then "dark"
  else if String.eqb theme "dark" then "emerald"
  else "light".

(** The [path] of each entry of [navItems]. *)
Definition navPaths : list string := ["/dashboard"; "/settings"; "/docs"].

(** [isActive] of the item with path [path] at [location.pathname]. *)
Definition isActive (pathname path : string) : bool :=
  String.eqb pathname path
  || (String.eqb path "/dashboard" && Str.startsWith pathname "/website").

End Navigation.

(** ** Service page *)

Module WebsitePage.

(** The list query of [fetchApiKeys] in WebsitePage. *)
Definition listQuery (decodedServiceName : string) : Query :=
  mkQuery (Some decodedServiceName) [(ColCreatedAt, false)].

End WebsitePage.

(** ** Dashboard with tags *)

Module Dashboard.

(** The [useState] cells of Dashboard. *)
Record State : Type := mkState {
  apiKeys : list ApiKey.t;
  loading : bool;
  isModalOpen : bool;
  editingKey : option ApiKey.t;
  darkMode : bool;
  searchQuery : string;
  selectedTag : string;
  allTags : list string
}.

Definition initial : State := mkState [] true false None false "" "" [].

Definition setApiKeys (v : list ApiKey.t) (s : State) : State :=
  mkState v (loading s) (isModalOpen s) (editingKey s) (darkMode s)
    (searchQuery s) (selectedTag s) (allTags s).
Definition setLoading (v : bool) (s : State) : State :=
  mkState (apiKeys s) v (isModalOpen s) (editingKey s) (darkMode s)
    (searchQuery s) (selectedTag s) (allTags s).
Definition setIsModalOpen (v : bool) (s : State) : State :=
  mkState (apiKeys s) (loading s) v (editingKey s) (darkMode s)
    (searchQuery s) (selectedTag s) (allTags s).
Definition setEditingKey (v : option ApiKey.t) (s : State) : State :=
  mkState (apiKeys s) (loading s) (isModalOpen s) v (darkMode s)
    (searchQuery s) (selectedTag s) (allTags s).
Definition setDarkMode (v : bool) (s : State) : State :=
  mkState (apiKeys s) (loading s) (isModalOpen s) (editingKey s) v
    (searchQuery s) (selectedTag s) (allTags s).
Definition setSearchQuery (v : string) (s : State) : State :=
  mkState (apiKeys s) (loading s) (isModalOpen s) (editingKey s) (darkMode s)
    v (selectedTag s) (allTags s).
Definition setSelectedTag (v : string) (s : State) : State :=
  mkState (apiKeys s) (loading s) (isModalOpen s) (editingKey s) (darkMode s)
    (searchQuery s) v (allTags s).
Definition setAllTags (v : list string) (s : State) : State :=
  mkState (apiKeys s) (loading s) (isModalOpen s) (editingKey s) (darkMode s)
    (searchQuery s) (selectedTag s) v.

(** The list query of [fetchApiKeys] in Dashboard. *)
Definition listQuery : Query := mkQuery None [(ColCreatedAt, false)].

(** [tags.add(tag)] on a [Set], kept in insertion order. *)
Definition add (tags : list string) (tag : string) : list string :=
  if bool_decide (tag ∈ tags) then tags else (tags ++ [tag])%list.

(** [data.forEach(key => key.tags.forEach(tag => tags.add(tag)))] from an
    empty set. *)
Definition collectTags (data : list ApiKey.t) : list string :=
  foldl (fun tags key => foldl add tags (ApiKey.tags key)) [] data.

Section Handlers.
(** The user's answer to a [confirm] prompt. *)
Variable confirm : string -> bool.
(** The order of the default [sort()]: [le a b] when [a] does not come
    after [b] by UTF-16 code units. *)
Variable le : string -> string -> bool.
Variable toLowerCase : string -> string.

Fixpoint insertTag (tag : string) (sorted : list string) : list string :=
  match sorted with
  | [] => [tag]
  | t :: rest =>
      if le tag t then tag :: sorted else t :: insertTag tag rest
  end.

(** [Array.from(tags).sort()] *)
Definition sort (tags : list string) : list string :=
  foldr insertTag [] tags.

Definition fetchApiKeys : Async.t State unit :=
  Async.set (setLoading true);;
  r ← Env.select listQuery;
  match r with
  | inl _ => Async.log (CallConsoleError "Error fetching API keys:")
  | inr data =>
      Async.set (setApiKeys data);;
      Async.set (setAllTags (sort (collectTags data)))
  end;;
  Async.set (setLoading false).

Definition handleAdd : Async.t State unit :=
  Async.set (setEditingKey None);;
  Async.set (setIsModalOpen true).

Definition handleEdit (key : ApiKey.t) : Async.t State unit :=
  Async.set (setEditingKey (Some key));;
  Async.set (setIsModalOpen true).

Definition handleDelete (id : string) : Async.t State unit :=
  if negb (confirm "Are you sure you want to delete this API key?")
  then mret tt
  else
    error ← Env.delete id;
    match error with
    | Some _ => Async.log (CallConsoleError "Error deleting API key:")
    | None => fetchApiKeys
    end.

Definition handleModalClose : Async.t State unit :=
  Async.set (setIsModalOpen false);;
  Async.set (setEditingKey None);;
  fetchApiKeys.

(** The predicate of [apiKeys.filter(...)] in Dashboard. *)
Definition matches (st : State) (key : ApiKey.t) : bool :=
  let matchesSearch :=
    negb (Js.truthy (searchQuery st))
    || Str.includes (toLowerCase (ApiKey.service_name key))
         (toLowerCase (searchQuery st))
    || Str.includes (toLowerCase (ApiKey.email_username key))
         (toLowerCase (searchQuery st))
    || Str.includes (toLowerCase (ApiKey.notes key))
         (toLowerCase (searchQuery st)) in
  let matchesTag :=
    negb (Js.truthy (selectedTag st))
    || bool_decide (selectedTag st ∈ ApiKey.tags key) in
  matchesSearch && matchesTag.

Definition filteredKeys (st : State) : list ApiKey.t :=
  List.filter (matches st) (apiKeys st).

(** What the user and the page can do. *)
Inductive Event : Type :=
| Mount                          (* useEffect(() => fetchApiKeys(), []) *)
| ClickAdd
| ClickEdit (key : ApiKey.t)
| ClickDelete (id : string)
| CloseModal
| TypeSearch (value : string)
| SelectTag (value : string)
| ToggleDarkMode.

Definition handle (e : Event) : Async.t State unit :=
  match e with
  | Mount => fetchApiKeys
  | ClickAdd => handleAdd
  | ClickEdit key => handleEdit key
  | ClickDelete id => handleDelete id
  | CloseModal => handleModalClose
  | TypeSearch value => Async.set (setSearchQuery value)
  | SelectTag value => Async.set (setSelectedTag value)
  | ToggleDarkMode => Async.set (fun s => setDarkMode (negb (darkMode s)) s)
  end.

(** The state and world after a sequence of events. *)
Definition run (events : list Event) (s : State * World) : State * World :=
  foldl (fun s e => snd (handle e s)) s events.

End Handlers.

(** The tag list offers exactly the tags of the listed records, each once. *)
Definition tagsInSync (st : State) : Prop :=
  NoDup (allTags st)
  /\ forall tag, In tag (allTags st) <->
       exists key, In key (apiKeys st) /\ In tag (ApiKey.tags key).

End Dashboard.

(** ** Rows of the mass-add form, observed *)

Module Rows.

Definition ids (s : MassAddModal.State) : list string :=
  map ApiKeyRow.id (MassAddModal.rows s).

(** The form shows at least one row and its rows have distinct ids. *)
Definition wellFormed (s : MassAddModal.State) : Prop :=
  MassAddModal.rows s <> [] /\ NoDup (ids s).

(** [row[field]] *)
Definition getField (f : MassAddModal.RowField) (row : ApiKeyRow.t) : string :=
  match f with
  | MassAddModal.RId => ApiKeyRow.id row
  | MassAddModal.REmailUsername => ApiKeyRow.email_username row
  | MassAddModal.RPassword => ApiKeyRow.password row
  | MassAddModal.RApiKey => ApiKeyRow.api_key row
  | MassAddModal.RNotes => ApiKeyRow.notes row
  end.

Global Instance RowField_eq_dec : EqDecision MassAddModal.RowField.
Proof. solve_decision. Defined.

(** The number on the submit button:
    [rows.filter(r => r.api_key.trim()).length]. *)
Definition saveCount (s : MassAddModal.State) : nat :=
  length (List.filter MassAddModal.valid (MassAddModal.rows s)).

End Rows.

(** ** Sample data with tags *)

Module SampleTags.

Definition first : ApiKey.t :=
  ApiKey.mk "t1" "user-1" "OpenAI" "" "" "enc:one" "" ["work"; "ai"] 0 0.

Definition second : ApiKey.t :=
  ApiKey.mk "t2" "user-1" "Tavily" "" "" "enc:two" "" ["ai"] 1 1.

(** The dashboard once [first] and [second] have been fetched, tags sorted
    bytewise. *)
Definition dashboard : Dashboard.State :=
  Dashboard.setAllTags
    (Dashboard.sort String.leb (Dashboard.collectTags [first; second]))
    (Dashboard.setApiKeys [first; second] Dashboard.initial).

End SampleTags.

(** * Properties *)

(** ** Strings *)

Example trim_examples :
  Js.trim "  sk-abc	 " = "sk-abc" /\ Js.trim " 	 " = "" /\
  Js.trim "a b" = "a b" /\ Js.trim " •" = "•".
Proof. vm_compute. auto. Qed.

(** A NO-BREAK SPACE in front and an IDEOGRAPHIC SPACE behind are trimmed. *)
Example trim_unicode :
  Js.trim (String (ascii_of_N 194) (String (ascii_of_N 160) "sk")
           +:+ String (ascii_of_N 227)
                 (String (ascii_of_N 128) (String (ascii_of_N 128) "")))
  = "sk".
Proof. reflexivity. Qed.

(** ** The encryption contract *)

Section EncryptionFacts.
Import Encryption.

Lemma xor_ascii_cancel (a b : ascii) : xor_ascii (xor_ascii a b) b = a.
Proof.
  destruct a, b; cbn.
  by rewrite !xorb_assoc, !xorb_nilpotent, !xorb_false_r.
Qed.

Lemma xor_ascii_inj_l (a a' b : ascii) :
  xor_ascii a b = xor_ascii a' b -> a = a'.
Proof.
  intros H. rewrite <- (xor_ascii_cancel a b), H. apply xor_ascii_cancel.
Qed.

Lemma mask_mask (pad : ascii) (s : string) : mask pad (mask pad s) = s.
Proof.
  induction s as [|c s IH]; cbn; [done|].
  by rewrite xor_ascii_cancel, IH.
Qed.

Lemma encrypt_inv key nonce s c :
  encrypt key nonce s = inr c ->
  exists k, key = Some k /\
            c = String nonce (String (tag k nonce) (mask k s)).
Proof.
  unfold encrypt. destruct key as [k|]; [|discriminate].
  intros [= <-]. by exists k.
Qed.

Lemma decrypt_inv key c p :
  decrypt key c = inr p ->
  exists k nonce body,
    key = Some k /\ c = String nonce (String (tag k nonce) body) /\
    p = mask k body.
Proof.
  unfold decrypt. destruct key as [k|]; [|discriminate].
  destruct c as [|nonce [|t body]]; try discriminate.
  destruct (Ascii.eqb t (tag k nonce)) eqn:E; [|discriminate].
  apply Ascii.eqb_eq in E as ->. intros [= <-]. by exists k, nonce, body.
Qed.

(** A ciphertext names the one key it was made with. *)
Lemma produced_by_one_key k k' c :
  produced_by k c -> produced_by k' c -> k = k'.
Proof.
  intros (n & s & H) (n' & s' & H').
  apply encrypt_inv in H as (? & [= <-] & ->).
  apply encrypt_inv in H' as (? & [= <-] & [= <- Ht _]).
  by apply xor_ascii_inj_l in Ht.
Qed.

Lemma decrypt_produced k c p :
  decrypt (Some k) c = inr p -> exists nonce, encrypt (Some k) nonce p = inr c.
Proof.
  intros H. apply decrypt_inv in H as (? & n & body & [= <-] & -> & ->).
  exists n. cbn. by rewrite mask_mask.
Qed.

Lemma decrypt_error key c e : decrypt key c = inl e -> e = DecryptionError.
Proof.
  unfold decrypt. destruct key as [k|]; [|congruence].
  destruct c as [|nonce [|t body]]; try congruence.
  destruct (Ascii.eqb t (tag k nonce)); congruence.
Qed.

Lemma decrypt_after_encrypt key nonce s c :
  encrypt key nonce s = inr c -> decrypt key c = inr s.
Proof.
  intros H. apply encrypt_inv in H as (k & -> & ->).
  cbn. rewrite Ascii.eqb_refl. by rewrite mask_mask.
Qed.

End EncryptionFacts.

(** C1.  Round-trip law: whenever [encrypt] returns a ciphertext for a
    plaintext [s], whatever nonce the call drew, [decrypt] under the same
    key returns [s]. *)
Theorem decrypt_encrypt_roundtrip (key : option Encryption.Key)
    (nonce : ascii) (s c : string) :
  Encryption.encrypt key nonce s = inr c ->
  Encryption.decrypt key c = inr s.
Proof.
  apply decrypt_after_encrypt.
Qed.

Lemma decrypt_encrypt_roundtrip_witness :
  Encryption.encrypt (Some "K"%char) "n"%char "sk-test-123"
  = inr (String "n" (String "%" "8 f?.8?fzyx")) /\
  Encryption.decrypt (Some "K"%char) (String "n" (String "%" "8 f?.8?fzyx"))
  = inr "sk-test-123".
Proof.
  split; [reflexivity|].
  apply (decrypt_encrypt_roundtrip (Some "K"%char) "n"%char "sk-test-123").
  reflexivity.
Defined.

(** Two calls on the same plaintext that draw different nonces return
    different ciphertexts, and both decrypt to the plaintext. *)
Lemma encrypt_nonce_dependent (k : Encryption.Key) (n n' : ascii) (s : string) :
  n <> n' ->
  Encryption.encrypt (Some k) n s <> Encryption.encrypt (Some k) n' s.
Proof. cbn. congruence. Qed.

(** C6.  [decrypt] under key [k] fails with a DecryptionError on every
    ciphertext produced under a different key and on every malformed
    ciphertext (one no call of [encrypt] returns); a plaintext it does
    return is one that [encrypt] under [k] turns into this ciphertext, so
    no incorrect plaintext is returned silently. *)
Theorem decrypt_rejects_foreign_and_malformed (k : Encryption.Key)
    (c : string) :
  (forall k', k' <> k -> Encryption.produced_by k' c ->
     Encryption.decrypt (Some k) c = inl DecryptionError) /\
  ((forall k', ~ Encryption.produced_by k' c) ->
     Encryption.decrypt (Some k) c = inl DecryptionError) /\
  (forall p, Encryption.decrypt (Some k) c = inr p ->
     exists nonce, Encryption.encrypt (Some k) nonce p = inr c).
Proof.
  assert (Hfail : ~ Encryption.produced_by k c ->
            Encryption.decrypt (Some k) c = inl DecryptionError).
  { intros Hno. destruct (Encryption.decrypt (Some k) c) as [e|p] eqn:E.
    - by rewrite (decrypt_error _ _ _ E).
    - destruct Hno. apply decrypt_produced in E as [n E]. by exists n, p. }
  split; [|split].
  - intros k' Hne Hprod. apply Hfail. intros Hk.
    apply Hne. eapply produced_by_one_key; eauto.
  - intros Hno. apply Hfail, Hno.
  - intros p. apply decrypt_produced.
Qed.

Lemma decrypt_rejects_foreign_and_malformed_witness :
  Encryption.encrypt (Some "J"%char) "n"%char "sk-abc"
  = inr (String "n" (String "$" "9!g+()"))
  /\ Encryption.decrypt (Some "K"%char) (String "n" (String "$" "9!g+()"))
     = inl DecryptionError
  /\ Encryption.decrypt (Some "K"%char) "x" = inl DecryptionError.
Proof.
  split; [reflexivity|]. split.
  - apply (decrypt_rejects_foreign_and_malformed "K"%char
             (String "n" (String "$" "9!g+()")))
      with (k' := "J"%char).
    + discriminate.
    + exists "n"%char, "sk-abc". reflexivity.
  - apply (decrypt_rejects_foreign_and_malformed "K"%char "x").
    intros k' (n & s & H). cbn in H. congruence.
Defined.

(** ** Running handlers *)

Ltac run :=
  repeat first
    [ progress unfold mbind, mret, Async_bind, Async_ret, Async.bind,
        Async.ret, Async.throw, Async.try_catch, Async.finally, Async.state,
        Async.set, Async.world, Async.act, Async.log, Env.await_crypto,
        Env.writeText, Env.setTimeout, Env.getUser, Env.select,
        Env.insert, Env.delete
    | progress cbn [fst snd] ].

(** ** Reveal and copy *)

Section RevealFacts.
Import Page MainDashboard.
Variable decrypt : string -> CryptoError + string.

Lemma visible_setVisible (f : Field) (v : gset string) (st : Page.t) :
  visible f (setVisible f v st) = v.
Proof. by destruct f. Qed.

Lemma setVisible_twice (f : Field) (v v' : gset string) (st : Page.t) :
  setVisible f v (setVisible f v' st) = setVisible f v st.
Proof. by destruct f. Qed.

Lemma decryptedData_setVisible (f : Field) (v : gset string) (st : Page.t) :
  decryptedData (setVisible f v st) = decryptedData st.
Proof. by destruct f. Qed.

(** Hiding: only the visibility set of the field changes. *)
Lemma toggle_visible id f encrypted st w :
  id ∈ visible f st ->
  toggleVisibility decrypt id f encrypted (st, w)
  = (inr tt,
     (setVisible f (visible f st ∖ {[id]}) st, w)).
Proof.
  intros Hin. unfold toggleVisibility. run.
  destruct f; cbn in *; by rewrite decide_True.
Qed.

(** Revealing with an entry cached for the record: no call is made. *)
Lemma toggle_hidden_cached id f encrypted st w :
  id ∉ visible f st -> is_Some (decryptedData st !! id) ->
  toggleVisibility decrypt id f encrypted (st, w)
  = (inr tt,
     (setVisible f (visible f st ∪ {[id]}) st, w)).
Proof.
  intros Hin Hc. unfold toggleVisibility. run.
  destruct f; cbn in *; rewrite decide_False by done;
    by rewrite decide_True.
Qed.

(** Revealing with nothing cached for the record: [decrypt] is called. *)
Lemma toggle_hidden_fresh id f encrypted st w :
  id ∉ visible f st -> decryptedData st !! id = None ->
  toggleVisibility decrypt id f encrypted (st, w)
  = match decrypt encrypted with
    | inr p =>
        (inr tt,
         (setVisible f (visible f st ∪ {[id]})
            (setDecryptedData
               (<[id := Decrypted.set f p (Decrypted.mk "" "")]>
                  (decryptedData st)) st),
          mkWorld (backend w) (faults w) (clipboard w) (clipboardGranted w)
            (timers w) (trace w ++ [CallDecrypt encrypted])))
    | inl e =>
        (inl (CryptoExn e),
         (st,
          mkWorld (backend w) (faults w) (clipboard w) (clipboardGranted w)
            (timers w) (trace w ++ [CallDecrypt encrypted])))
    end.
Proof.
  intros Hin Hc. unfold toggleVisibility. run.
  assert (Hn : ~ is_Some (decryptedData st !! id))
    by (rewrite Hc; intros [? ?]; discriminate).
  destruct f; cbn in *; rewrite decide_False by done;
    rewrite decide_False by done; rewrite Hc;
    by destruct (decrypt encrypted).
Qed.

Lemma decrypts_app tr tr' :
  decrypts (tr ++ tr') = (decrypts tr ++ decrypts tr')%list.
Proof. apply omap_app. Qed.

Lemma written_app tr tr' :
  written (tr ++ tr') = (written tr ++ written tr')%list.
Proof. apply omap_app. Qed.

End RevealFacts.

(** Reveal, hide, reveal from a hidden field.  The first reveal calls
    [decrypt] once when nothing is cached for the record and caches the
    plaintext; hiding drops only the visibility flag and keeps the cache; the
    second reveal makes no call and ends in the very state of the first
    reveal, so both reveals display the same text.  That text is the
    plaintext only when the record had no cache entry at the start. *)
Theorem reveal_toggle_idempotent (decrypt : string -> CryptoError + string)
    (id : string) (f : Field) (encrypted : string) (st : Page.t) (w : World) :
  id ∉ Page.visible f st ->
  (Page.decryptedData st !! id = None -> exists p, decrypt encrypted = inr p) ->
  exists s1 s2 s3,
    MainDashboard.toggleVisibility decrypt id f encrypted (st, w) = (inr tt, s1)
    /\ MainDashboard.toggleVisibility decrypt id f encrypted s1 = (inr tt, s2)
    /\ MainDashboard.toggleVisibility decrypt id f encrypted s2 = (inr tt, s3)
    /\ id ∈ Page.visible f (fst s1)
    /\ s2 = (Page.setVisible f (Page.visible f (fst s1) ∖ {[id]}) (fst s1),
             snd s1)
    /\ (id ∉ Page.visible f (fst s2))
    /\ Page.decryptedData (fst s2) = Page.decryptedData (fst s1)
    /\ s3 = s1
    /\ (forall k, MainDashboard.cell f (fst s3) k
                  = MainDashboard.cell f (fst s1) k)
    /\ MainDashboard.decrypts (trace (snd s3))
       = (MainDashboard.decrypts (trace w)
          ++ (if decide (is_Some (Page.decryptedData st !! id)) then []
              else [encrypted]))%list
    /\ (forall p, Page.decryptedData st !! id = None ->
          decrypt encrypted = inr p ->
          MainDashboard.decrypts (trace (snd s1))
          = (MainDashboard.decrypts (trace w) ++ [encrypted])%list
          /\ (Decrypted.get f <$> Page.decryptedData (fst s1) !! id) = Some p
          /\ forall k, ApiKey.id k = id -> p <> "" ->
               (f = FPassword ->
                Js.truthy (ApiKey.encrypted_password k) = true) ->
               MainDashboard.cell f (fst s1) k = p).
Proof.
  intros Hhid Hdec.
  set (V := Page.visible f st) in *.
  assert (Hstep1 : exists st1 w1,
    MainDashboard.toggleVisibility decrypt id f encrypted (st, w)
      = (inr tt, (st1, w1))
    /\ Page.visible f st1 = V ∪ {[id]}
    /\ is_Some (Page.decryptedData st1 !! id)
    /\ MainDashboard.decrypts (trace w1)
       = (MainDashboard.decrypts (trace w)
          ++ (if decide (is_Some (Page.decryptedData st !! id)) then []
              else [encrypted]))%list
    /\ (forall p, Page.decryptedData st !! id = None ->
          decrypt encrypted = inr p ->
          Page.decryptedData st1 !! id
          = Some (Decrypted.set f p (Decrypted.mk "" "")))).
  { destruct (Page.decryptedData st !! id) as [d|] eqn:Hc.
    - eexists _, _. split.
      { apply toggle_hidden_cached; [done|]. rewrite Hc. by eexists. }
      rewrite visible_setVisible, decryptedData_setVisible, Hc.
      rewrite decide_True by (by eexists).
      rewrite app_nil_r. repeat split; eauto. discriminate.
    - destruct (Hdec eq_refl) as [p Hp].
      eexists _, _. split.
      { rewrite toggle_hidden_fresh by done. rewrite Hp. reflexivity. }
      rewrite visible_setVisible, decryptedData_setVisible. cbn.
      rewrite lookup_insert_eq, decrypts_app.
      rewrite decide_False by (intros [? ?]; discriminate).
      repeat split; eauto.
      intros p' _ Hp'. rewrite Hp in Hp'. by injection Hp' as ->. }
  destruct Hstep1 as (st1 & w1 & H1 & HV1 & Hc1 & Htr & Hfresh).
  assert (Hin1 : id ∈ Page.visible f st1).
  { rewrite HV1. apply elem_of_union_r. by apply elem_of_singleton. }
  exists (st1, w1), (Page.setVisible f (Page.visible f st1 ∖ {[id]}) st1, w1),
    (st1, w1).
  cbn [fst snd].
  assert (Hout2 : id ∉ Page.visible f
                    (Page.setVisible f (Page.visible f st1 ∖ {[id]}) st1)).
  { rewrite visible_setVisible. intros [_ Hn]%elem_of_difference.
    apply Hn. by apply elem_of_singleton. }
  split; [done|]. split; [by apply toggle_visible|]. split.
  { rewrite toggle_hidden_cached;
      [|done|by rewrite decryptedData_setVisible].
    rewrite visible_setVisible, setVisible_twice.
    replace (Page.visible f st1 ∖ {[id]} ∪ {[id]}) with (Page.visible f st1).
    - f_equal. f_equal. clear. by destruct f, st1.
    - apply set_eq. intros x.
      rewrite elem_of_union, elem_of_difference, elem_of_singleton.
      destruct (decide (x = id)) as [->|]; tauto. }
  split; [done|]. split; [done|]. split; [done|].
  split; [by rewrite decryptedData_setVisible|].
  split; [done|]. split; [done|]. split; [done|].
  intros p Hc Hp. rewrite (Hfresh p Hc Hp). split.
  { rewrite Htr, Hc. by rewrite decide_False by (intros [? ?]; discriminate). }
  split.
  { cbn. by destruct f. }
  intros k Hk Hne Hpw. subst id.
  destruct f; cbn in *.
  - unfold MainDashboard.keyCell. rewrite decide_True by done.
    rewrite (Hfresh p Hc Hp). cbn. by destruct p.
  - unfold MainDashboard.passwordCell. rewrite (Hpw eq_refl).
    rewrite decide_True by done.
    rewrite (Hfresh p Hc Hp). cbn. by destruct p.
Qed.

Lemma reveal_toggle_idempotent_witness :
  ("r1" ∉ Page.visible FKey Page.initial) /\
  exists s1 s2 s3,
    MainDashboard.toggleVisibility Sample.decrypt "r1" FKey "enc:sk-test-123"
      (Page.initial, Sample.world) = (inr tt, s1)
    /\ MainDashboard.toggleVisibility Sample.decrypt "r1" FKey
         "enc:sk-test-123" s1 = (inr tt, s2)
    /\ MainDashboard.toggleVisibility Sample.decrypt "r1" FKey
         "enc:sk-test-123" s2 = (inr tt, s3)
    /\ s3 = s1
    /\ MainDashboard.decrypts (trace (snd s3)) = ["enc:sk-test-123"]
    /\ MainDashboard.cell FKey (fst s3) Sample.record = "sk-test-123".
Proof.
  assert (Hhid : "r1" ∉ Page.visible FKey Page.initial)
    by apply not_elem_of_empty.
  split; [exact Hhid|].
  destruct (reveal_toggle_idempotent Sample.decrypt "r1" FKey
              "enc:sk-test-123" Page.initial Sample.world Hhid)
    as (s1 & s2 & s3 & H1 & H2 & H3 & _ & _ & _ & _ & H33 & _ & _ & Hp).
  { intros _. exists "sk-test-123". reflexivity. }
  assert (Hd : Sample.decrypt "enc:sk-test-123" = inr "sk-test-123")
    by reflexivity.
  destruct (Hp "sk-test-123" (lookup_empty _) Hd) as (Htr1 & _ & Hcell).
  exists s1, s2, s3.
  split; [exact H1|]. split; [exact H2|]. split; [exact H3|].
  split; [exact H33|]. rewrite H33. split; [exact Htr1|].
  apply Hcell; [reflexivity|discriminate|discriminate].
Defined.

(** C3.  The cache is looked up by record only, so a reveal is a cache hit
    as soon as the record has an entry, be it made for the other field.
    Once the password of the sample record has been revealed, toggling its
    key Hidden, Revealed, Hidden, Revealed never calls [decrypt]: the world
    is as before after every step, both reveals show the placeholder sk-***
    and not the plaintext sk-test-123 that [decrypt] returns for the
    record's ciphertext, and no plaintext of the key is ever cached. *)
Theorem reveal_hide_reveal_after_password_never_decrypts :
  ("r1" ∉ Page.visible FKey Sample.passwordRevealed)
  /\ Sample.decrypt "enc:sk-test-123" = inr "sk-test-123"
  /\ trace Sample.world = []
  /\ exists s1 s2 s3,
      MainDashboard.toggleVisibility Sample.decrypt "r1" FKey
        "enc:sk-test-123" (Sample.passwordRevealed, Sample.world)
      = (inr tt, (s1, Sample.world))
      /\ MainDashboard.toggleVisibility Sample.decrypt "r1" FKey
           "enc:sk-test-123" (s1, Sample.world)
         = (inr tt, (s2, Sample.world))
      /\ MainDashboard.toggleVisibility Sample.decrypt "r1" FKey
           "enc:sk-test-123" (s2, Sample.world)
         = (inr tt, (s3, Sample.world))
      /\ "r1" ∈ Page.visible FKey s1
      /\ ("r1" ∉ Page.visible FKey s2)
      /\ "r1" ∈ Page.visible FKey s3
      /\ MainDashboard.cell FKey s1 Sample.record = "sk-***"
      /\ MainDashboard.cell FKey s3 Sample.record = "sk-***"
      /\ (Decrypted.get FKey <$> Page.decryptedData s1 !! "r1") = Some ""
      /\ (Decrypted.get FKey <$> Page.decryptedData s3 !! "r1") = Some "".
Proof.
  assert (Hhid : "r1" ∉ Page.visible FKey Sample.passwordRevealed)
    by apply not_elem_of_empty.
  assert (Hcached : is_Some (Page.decryptedData Sample.passwordRevealed
                             !! "r1")).
  { cbn. rewrite lookup_singleton_eq. by eexists. }
  split; [exact Hhid|]. split; [reflexivity|]. split; [reflexivity|].
  set (s1 := Page.setVisible FKey
               (Page.visible FKey Sample.passwordRevealed ∪ {["r1"]})
               Sample.passwordRevealed).
  assert (H1 : "r1" ∈ Page.visible FKey s1).
  { unfold s1. rewrite visible_setVisible.
    apply elem_of_union_r. by apply elem_of_singleton. }
  set (s2 := Page.setVisible FKey (Page.visible FKey s1 ∖ {["r1"]}) s1).
  assert (H2 : "r1" ∉ Page.visible FKey s2).
  { unfold s2. rewrite visible_setVisible.
    intros [_ Hn]%elem_of_difference. apply Hn. by apply elem_of_singleton. }
  assert (Hc2 : is_Some (Page.decryptedData s2 !! "r1")).
  { unfold s2, s1. by rewrite !decryptedData_setVisible. }
  set (s3 := Page.setVisible FKey (Page.visible FKey s2 ∪ {["r1"]}) s2).
  assert (H3 : "r1" ∈ Page.visible FKey s3).
  { unfold s3. rewrite visible_setVisible.
    apply elem_of_union_r. by apply elem_of_singleton. }
  assert (Hcell : forall s : Page.t,
            "r1" ∈ Page.visible FKey s ->
            Page.decryptedData s
            = Page.decryptedData Sample.passwordRevealed ->
            MainDashboard.cell FKey s Sample.record = "sk-***"
            /\ (Decrypted.get FKey <$> Page.decryptedData s !! "r1")
               = Some "").
  { intros s Hvis Hd. cbn. unfold MainDashboard.keyCell.
    rewrite decide_True by exact Hvis. rewrite Hd. cbn.
    by rewrite lookup_singleton_eq. }
  destruct (Hcell s1 H1) as [Hc1 Hd1].
  { unfold s1. by rewrite decryptedData_setVisible. }
  destruct (Hcell s3 H3) as [Hc3 Hd3].
  { unfold s3, s2, s1. by rewrite !decryptedData_setVisible. }
  exists s1, s2, s3.
  split; [by apply toggle_hidden_cached|].
  split; [by apply toggle_visible|].
  split; [by apply toggle_hidden_cached|].
  done.
Qed.

(** C4.  The cache is looked up by record only.  Once the password of a
    record has been revealed, its key field is Hidden and no plaintext is
    cached for it, yet revealing the key makes no call of [decrypt]: the
    field becomes Revealed and shows the placeholder. *)
Theorem reveal_key_after_password_skips_decrypt :
  MainDashboard.toggleVisibility Sample.decrypt "r1" FPassword "enc:hunter2"
    (Page.setApiKeys [Sample.record] (Page.setLoading false Page.initial),
     Sample.world)
  = (inr tt,
     (Sample.passwordRevealed,
      mkWorld (backend Sample.world) [] "" true []
        [CallDecrypt "enc:hunter2"]))
  /\ ("r1" ∉ Page.visible FKey Sample.passwordRevealed)
  /\ ((Decrypted.get FKey
        <$> Page.decryptedData Sample.passwordRevealed !! "r1") = Some "")
  /\ Sample.decrypt "enc:sk-test-123" = inr "sk-test-123"
  /\ exists st',
      MainDashboard.toggleVisibility Sample.decrypt "r1" FKey
        "enc:sk-test-123" (Sample.passwordRevealed, Sample.world)
      = (inr tt, (st', Sample.world))
      /\ "r1" ∈ Page.visible FKey st'
      /\ Page.decryptedData st' = Page.decryptedData Sample.passwordRevealed
      /\ MainDashboard.cell FKey st' Sample.record = "sk-***".
Proof.
  split; [|split; [|split; [|split]]].
  - rewrite toggle_hidden_fresh;
      [|apply not_elem_of_empty|apply lookup_empty].
    cbn. unfold Sample.passwordRevealed, Page.setVisiblePasswords. cbn.
    reflexivity.
  - apply not_elem_of_empty.
  - cbn. by rewrite lookup_singleton_eq.
  - reflexivity.
  - eexists. split.
    + apply toggle_hidden_cached; [apply not_elem_of_empty|].
      cbn. rewrite lookup_singleton_eq. by eexists.
    + cbn. split; [|split; [done|]].
      * apply elem_of_union_r. by apply elem_of_singleton.
      * unfold MainDashboard.keyCell. cbn.
        rewrite decide_True
          by (apply elem_of_union_r; by apply elem_of_singleton).
        by rewrite lookup_singleton_eq.
Qed.

(** ** Copy to clipboard *)

Section CopyFacts.
Import Page MainDashboard.
Variable decrypt : string -> CryptoError + string.

Lemma copyToClipboard_run text id st w :
  copyToClipboard decrypt text id (st, w)
  = match decrypt text with
    | inl e =>
        (inl (CryptoExn e),
         (st, mkWorld (backend w) (faults w) (clipboard w)
                (clipboardGranted w) (timers w)
                (trace w ++ [CallDecrypt text])))
    | inr p =>
        if clipboardGranted w then
          (inr tt,
           (setCopiedId (Some id) st,
            mkWorld (backend w) (faults w) p true
              (timers w ++ [(2000%N, ClearCopied)])
              ((trace w ++ [CallDecrypt text]) ++ [CallWriteText p])))
        else
          (inl ClipboardExn,
           (st, mkWorld (backend w) (faults w) (clipboard w) false
                  (timers w) (trace w ++ [CallDecrypt text])))
    end.
Proof.
  unfold copyToClipboard. run.
  destruct (decrypt text) as [e|p]; [done|]. run.
  unfold Env.with_clipboard, Env.with_timers. cbn.
  by destruct (clipboardGranted w) eqn:E; cbn; rewrite ?E.
Qed.

(** Every callback clears the indicator. *)
Lemma run_callbacks_clear (due : list (N * Callback)) (st : Page.t) :
  due <> [] ->
  copiedId (foldl (fun st t => run_callback (snd t) st) st due) = None.
Proof.
  intros Hne. destruct (exists_last Hne) as (l' & [ms cb] & ->).
  rewrite foldl_app. cbn. by destruct cb.
Qed.

End CopyFacts.

(** With the plaintext of a record cached, copying its key still calls
    [decrypt]. *)
Lemma copyToClipboard_ignores_cache :
  ~ MainDashboard.copy_served_from_cache Sample.decrypt Sample.keyRevealed
      Sample.world "r1" "enc:sk-test-123" "key-r1".
Proof.
  unfold MainDashboard.copy_served_from_cache. intros H.
  rewrite copyToClipboard_run in H. cbn in H.
  discriminate H. cbn. rewrite lookup_singleton_eq. by eexists.
Qed.

(** C5 (amended).  For a ciphertext [text] that decrypts to [p], with the
    clipboard permitted, [copyToClipboard] calls [decrypt] on [text] (once,
    whatever is cached), writes exactly [p] to the clipboard, sets the copied
    indicator to [id], and sets a timer of 2000 ms whose callback clears the
    indicator: once 2000 ms have passed the indicator is clear, and with no
    earlier timer pending it stays set until then. *)
Theorem copyToClipboard_copies (decrypt : string -> CryptoError + string)
    (text id : string) (st : Page.t) (w : World) (p : string) :
  decrypt text = inr p ->
  clipboardGranted w = true ->
  exists w',
    MainDashboard.copyToClipboard decrypt text id (st, w)
    = (inr tt, (Page.setCopiedId (Some id) st, w'))
    /\ clipboard w' = p
    /\ trace w' = (trace w ++ [CallDecrypt text; CallWriteText p])%list
    /\ timers w' = (timers w ++ [(2000%N, ClearCopied)])%list
    /\ backend w' = backend w
    /\ Page.copiedId
         (fst (MainDashboard.elapse 2000 (Page.setCopiedId (Some id) st, w')))
       = None
    /\ (timers w = [] -> forall ms, (ms < 2000)%N ->
          Page.copiedId
            (fst (MainDashboard.elapse ms (Page.setCopiedId (Some id) st, w')))
          = Some id).
Proof.
  intros Hp Hg. rewrite copyToClipboard_run, Hp, Hg.
  eexists. split; [reflexivity|]. cbn [clipboard trace timers backend].
  split; [done|]. split; [by rewrite <- app_assoc|].
  split; [done|]. split; [done|]. split.
  - unfold MainDashboard.elapse. cbn [fst snd timers].
    apply run_callbacks_clear. rewrite List.filter_app. cbn.
    by destruct (List.filter _ (timers w)).
  - intros Ht ms Hms. unfold MainDashboard.elapse. cbn [fst snd timers].
    rewrite Ht. cbn [app List.filter fst].
    by rewrite (proj2 (N.leb_gt 2000 ms) Hms).
Qed.

Lemma copyToClipboard_copies_witness :
  Sample.decrypt "enc:sk-test-123" = inr "sk-test-123" /\
  clipboardGranted Sample.world = true /\
  exists w',
    MainDashboard.copyToClipboard Sample.decrypt "enc:sk-test-123" "key-r1"
      (Sample.keyRevealed, Sample.world)
    = (inr tt, (Page.setCopiedId (Some "key-r1") Sample.keyRevealed, w'))
    /\ clipboard w' = "sk-test-123"
    /\ trace w'
       = [CallDecrypt "enc:sk-test-123"; CallWriteText "sk-test-123"]
    /\ timers w' = [(2000%N, ClearCopied)].
Proof.
  split; [reflexivity|]. split; [reflexivity|].
  destruct (copyToClipboard_copies Sample.decrypt "enc:sk-test-123" "key-r1"
              Sample.keyRevealed Sample.world "sk-test-123"
              eq_refl eq_refl)
    as (w' & H & Hc & Htr & Hti & _).
  exists w'. split; [exact H|]. split; [exact Hc|].
  split; [exact Htr|exact Hti].
Defined.

(** C10.  If [decrypt] fails inside [copyToClipboard], the handler is
    rejected with that failure: nothing is written to the clipboard, no
    timer is set, and the copied indicator and every other cell of the
    component state are as before. *)
Theorem copyToClipboard_decrypt_failure
    (decrypt : string -> CryptoError + string)
    (text id : string) (st : Page.t) (w : World) (e : CryptoError) :
  decrypt text = inl e ->
  exists w',
    MainDashboard.copyToClipboard decrypt text id (st, w)
    = (inl (CryptoExn e), (st, w'))
    /\ clipboard w' = clipboard w
    /\ MainDashboard.written (trace w') = MainDashboard.written (trace w)
    /\ timers w' = timers w
    /\ backend w' = backend w
    /\ trace w' = (trace w ++ [CallDecrypt text])%list.
Proof.
  intros He. rewrite copyToClipboard_run, He.
  eexists. split; [reflexivity|]. cbn [clipboard trace timers backend].
  rewrite written_app. cbn. by rewrite app_nil_r.
Qed.

Lemma copyToClipboard_decrypt_failure_witness :
  Sample.decrypt "garbled" = inl DecryptionError /\
  exists w',
    MainDashboard.copyToClipboard Sample.decrypt "garbled" "key-r1"
      (Sample.keyRevealed, Sample.world)
    = (inl (CryptoExn DecryptionError), (Sample.keyRevealed, w'))
    /\ clipboard w' = ""
    /\ MainDashboard.written (trace w') = [].
Proof.
  split; [reflexivity|].
  destruct (copyToClipboard_decrypt_failure Sample.decrypt "garbled" "key-r1"
              Sample.keyRevealed Sample.world DecryptionError eq_refl)
    as (w' & H & Hc & Hw & _).
  exists w'. split; [exact H|]. split; [exact Hc|exact Hw].
Defined.

(** ** Deleting a record *)

Section BackendFacts.
Import Backend.

Lemma insert_sorted_In keys x l r :
  In r (insert_sorted keys x l) <-> r = x \/ In r l.
Proof.
  induction l as [|y l IH]; cbn; [intuition|].
  destruct (before keys x y); cbn; [intuition|].
  rewrite IH. intuition.
Qed.

(** Ordering a result neither adds nor drops a row. *)
Lemma order_by_In keys l r : In r (order_by keys l) <-> In r l.
Proof.
  unfold order_by. induction l as [|x l IH]; cbn; [done|].
  rewrite insert_sorted_In, IH. intuition.
Qed.

Lemma select_In q b r :
  In r (select q b) <->
  In r (api_keys b) /\ owned b r = true /\ matches q r = true.
Proof.
  unfold select. rewrite order_by_In, List.filter_In, andb_true_iff.
  tauto.
Qed.

(** After a delete no list query of the session returns the record. *)
Lemma select_delete q id b r :
  In r (select q (delete id b)) -> ApiKey.id r <> id.
Proof.
  rewrite select_In. unfold delete at 1. cbn [api_keys].
  rewrite List.filter_In. intros ((_ & Hkeep) & Hown & _) <-.
  change (owned (delete (ApiKey.id r) b) r) with (owned b r) in Hown.
  by rewrite Hown, String.eqb_refl in Hkeep.
Qed.

End BackendFacts.

Section DeleteFacts.
Import Page MainDashboard.
Variable confirm : string -> bool.
Variable query : Query.

Lemma request_run {S} (s : S) (w : World) :
  Env.request (S:=S) (s, w)
  = (inr (default None (head (faults w))),
     (s, Env.with_faults (tail (faults w)) w)).
Proof.
  unfold Env.request. run. unfold Env.with_faults.
  destruct w as [b fs c g ts tr]. by destruct fs.
Qed.

Lemma handleDelete_run id st w :
  confirm "Are you sure you want to delete this API key?" = true ->
  Env.served 0 w = true ->
  handleDelete confirm query id (st, w)
  = fetchApiKeys query
      (st, mkWorld (Backend.delete id (backend w)) (tail (faults w))
             (clipboard w) (clipboardGranted w) (timers w)
             (trace w ++ [CallDelete id])).
Proof.
  intros Hc Hs. unfold handleDelete. rewrite Hc. cbn [negb].
  unfold Env.delete. run. rewrite request_run. run.
  unfold Env.served in Hs. destruct w as [b fs c g ts tr]; cbn in *.
  destruct fs as [|[msg|] fs]; cbn in *; done.
Qed.

Lemma fetchApiKeys_run st w :
  fetchApiKeys query (st, w)
  = (inr tt,
     (match head (faults w) with
      | Some (Some _) => setLoading false (setLoading true st)
      | _ => setLoading false
               (setApiKeys (Backend.select query (backend w))
                  (setLoading true st))
      end,
      mkWorld (backend w) (tail (faults w)) (clipboard w)
        (clipboardGranted w) (timers w)
        (match head (faults w) with
         | Some (Some _) =>
             (trace w ++ [CallSelect query])
             ++ [CallConsoleError "Error fetching API keys:"]
         | _ => trace w ++ [CallSelect query]
         end))).
Proof.
  unfold fetchApiKeys, Env.select. run. rewrite request_run. run.
  destruct w as [b fs c g ts tr]; cbn.
  destruct fs as [|[msg|] fs]; cbn; done.
Qed.

End DeleteFacts.

(** C8.  Deletion is gated by the confirmation prompt.  Declined: the
    handler makes no call and leaves the component state and the world as
    they were.  Confirmed, with the delete request served: the record is
    deleted, no list query of the owner returns it afterwards, and the list
    is fetched again; when that fetch is served the displayed list is its
    result and does not hold the record. *)
Theorem handleDelete_gated (confirm : string -> bool) (query : Query)
    (id : string) (st : Page.t) (w : World) :
  (confirm "Are you sure you want to delete this API key?" = false ->
   MainDashboard.handleDelete confirm query id (st, w) = (inr tt, (st, w)))
  /\
  (confirm "Are you sure you want to delete this API key?" = true ->
   Env.served 0 w = true ->
   exists st' w',
     MainDashboard.handleDelete confirm query id (st, w)
     = (inr tt, (st', w'))
     /\ backend w' = Backend.delete id (backend w)
     /\ (forall q r, In r (Backend.select q (backend w')) -> ApiKey.id r <> id)
     /\ (exists rest,
           trace w' = (trace w ++ CallDelete id :: CallSelect query :: rest)%list)
     /\ (Env.served 1 w = true ->
         Page.apiKeys st' = Backend.select query (backend w')
         /\ forall r, In r (Page.apiKeys st') -> ApiKey.id r <> id)).
Proof.
  split.
  - intros Hc. unfold MainDashboard.handleDelete. by rewrite Hc.
  - intros Hc Hs. rewrite handleDelete_run, fetchApiKeys_run by done.
    cbn [faults backend trace]. eexists _, _. split; [reflexivity|].
    cbn [faults backend trace].
    split; [done|]. split; [intros q r; apply select_delete|]. split.
    + destruct (head (tail (faults w))) as [[msg|]|];
        eexists; rewrite <- !app_assoc; reflexivity.
    + intros Hs1. unfold Env.served in Hs1.
      assert (Hh : match head (tail (faults w)) with
                   | Some (Some _) => False | _ => True end).
      { destruct (faults w) as [|o [|[msg|] fs]]; cbn in *; done. }
      destruct (head (tail (faults w))) as [[msg|]|]; [done| |];
        cbn; (split; [done|]); intros r; apply select_delete.
Qed.

Lemma handleDelete_gated_witness :
  MainDashboard.handleDelete (fun _ => false) MainDashboard.listQuery "r1"
    (Sample.listed, Sample.stocked)
  = (inr tt, (Sample.listed, Sample.stocked))
  /\
  exists st' w',
    MainDashboard.handleDelete (fun _ => true) MainDashboard.listQuery "r1"
      (Sample.listed, Sample.stocked)
    = (inr tt, (st', w'))
    /\ Backend.api_keys (backend w') = [Sample.other]
    /\ Page.apiKeys st' = [Sample.other].
Proof.
  split.
  - apply (handleDelete_gated (fun _ => false) MainDashboard.listQuery "r1"
             Sample.listed Sample.stocked).
    reflexivity.
  - destruct (handleDelete_gated (fun _ => true) MainDashboard.listQuery "r1"
                Sample.listed Sample.stocked) as [_ H].
    destruct (H eq_refl eq_refl) as (st' & w' & Hrun & Hb & _ & _ & Hl).
    exists st', w'. split; [exact Hrun|].
    destruct (Hl eq_refl) as [Hl' _].
    rewrite Hl', Hb. split; reflexivity.
Defined.

(** ** Mass add *)

Section TaskFacts.
Import MassAddModal.
Context {A : Type}.

Lemma collect_inr {E B} (rs : list (E + B)) (l : list B) :
  collect rs = inr l <-> rs = map inr l.
Proof.
  revert l. induction rs as [|r rs IH]; intros l; cbn.
  - split; [intros [= <-]; done|]. by destruct l.
  - destruct r as [e|a].
    { split; [done|]. by destruct l. }
    destruct (collect rs) as [e|l'] eqn:Hcol.
    + split; [done|]. destruct l as [|a' l]; [done|]. intros [= <- H].
      by apply IH in H.
    + split.
      * intros [= <-]. cbn. f_equal. by apply IH.
      * destruct l as [|a' l]; [done|]. intros [= <- H].
        apply IH in H. by injection H as ->.
Qed.

Lemma awaits_resume (t : Task A) : awaits (resume t) = pred (awaits t).
Proof. by destruct t as [r|c [e|v] k]. Qed.

Lemma outcome_resume (t : Task A) : outcome (resume t) = outcome t.
Proof. by destruct t as [r|c [e|v] k]. Qed.

Lemma outcome_after n : forall t : Task A, outcome (after n t) = outcome t.
Proof.
  induction n as [|n IH]; intros t; cbn; [done|].
  by rewrite IH, outcome_resume.
Qed.

(** Once its awaited calls have settled the task has settled. *)
Lemma after_settled n : forall t : Task A,
  awaits t <= n -> after n t = Settled (outcome t).
Proof.
  induction n as [|n IH]; intros t H.
  - destruct t as [r|c [e|v] k]; cbn in *; [done|lia|lia].
  - cbn. rewrite IH, outcome_resume; [done|]. rewrite awaits_resume. lia.
Qed.

Lemma rejection_after n (t : Task A) e :
  rejection (after n t) = Some e -> outcome t = inl e.
Proof.
  rewrite <- (outcome_after n t).
  destruct (after n t) as [[e'|a]|c r k]; cbn; congruence.
Qed.

Lemma awaits_rounds (tasks : list (Task A)) t :
  In t tasks -> awaits t <= rounds tasks.
Proof.
  unfold rounds, list_max.
  induction tasks as [|t' tasks IH]; cbn [map fold_right In]; [done|].
  intros [->|H]; [lia|]. specialize (IH H). lia.
Qed.

Lemma flat_map_nil {X Y} (f : X -> list Y) (l : list X) :
  (forall x, In x l -> f x = []) -> flat_map f l = [].
Proof.
  induction l as [|x l IH]; cbn; [done|]. intros H.
  rewrite (H x), IH; auto.
Qed.

(** The tasks as they stand in each round, by the number of the round. *)
Lemma flat_map_stages {X} (f : list (Task A) -> list X)
    (tasks : list (Task A)) :
  flat_map f (stages tasks)
  = flat_map (fun n => f (map (after n) tasks)) (seq 0 (S (rounds tasks))).
Proof.
  unfold stages. by rewrite !flat_map_concat_map, map_map.
Qed.

(** A round in which every task has settled is silent. *)
Lemma settled_silent (tasks : list (Task A)) n :
  rounds tasks <= n -> flat_map started (map (after n) tasks) = [].
Proof.
  intros Hn. apply flat_map_nil. intros t' Hin.
  apply in_map_iff in Hin as (t & <- & Hin).
  rewrite after_settled; [done|]. apply awaits_rounds in Hin. lia.
Qed.

(** The calls of the tasks are those of any number of rounds in which all
    of them settle. *)
Lemma allCalls_upto (tasks : list (Task A)) n :
  rounds tasks <= n ->
  allCalls tasks
  = flat_map (fun k => flat_map started (map (after k) tasks)) (seq 0 n).
Proof.
  intros Hn. unfold allCalls. rewrite flat_map_stages.
  assert (Hcut : forall m, rounds tasks <= m ->
            flat_map (fun k => flat_map started (map (after k) tasks))
              (seq 0 m)
            = flat_map (fun k => flat_map started (map (after k) tasks))
                (seq 0 (rounds tasks))).
  { intros m Hm. replace m with (rounds tasks + (m - rounds tasks)) by lia.
    rewrite seq_app, flat_map_app.
    rewrite (flat_map_nil _ (seq (0 + rounds tasks) _)), app_nil_r; [done|].
    intros k Hk. apply in_seq in Hk. apply settled_silent. lia. }
  rewrite (Hcut n Hn). apply Hcut. lia.
Qed.

(** [Promise.all] resolves exactly when every task resolves, with their
    values in the order of the tasks. *)
Lemma allOutcome_inr (tasks : list (Task A)) (values : list A) :
  allOutcome tasks = inr values <-> map outcome tasks = map inr values.
Proof.
  unfold allOutcome. split.
  - destruct (allRejected tasks); [done|]. apply collect_inr.
  - intros H. replace (allRejected tasks) with (@None Exn).
    { by apply collect_inr. }
    symmetry. unfold allRejected. rewrite flat_map_stages, flat_map_nil;
      [done|].
    intros n _. clear -H. revert values H.
    induction tasks as [|t tasks IH]; intros values H; [done|].
    destruct values as [|a values]; [done|]. cbn in H. injection H as Ht H.
    cbn. rewrite (IH values H).
    destruct (rejection (after n t)) as [e|] eqn:Hr; [|done].
    apply rejection_after in Hr. congruence.
Qed.

(** When [Promise.all] is rejected, some task is. *)
Lemma allOutcome_inl (tasks : list (Task A)) err :
  allOutcome tasks = inl err -> exists t, In t tasks /\ outcome t = inl err.
Proof.
  unfold allOutcome, allRejected. rewrite flat_map_stages.
  destruct (head _) as [e|] eqn:Hh.
  - intros [= <-]. apply head_Some_elem_of, list_elem_of_In in Hh.
    apply in_flat_map in Hh as (n & _ & Hin).
    apply list_elem_of_In, list_elem_of_omap in Hin as (t' & Hin & Hr).
    apply list_elem_of_In, in_map_iff in Hin as (t & <- & Hin).
    exists t. split; [done|]. by apply rejection_after in Hr.
  - intros Hc. clear Hh. induction tasks as [|t tasks IH]; [done|].
    cbn in Hc. destruct (outcome t) as [e|a] eqn:Ht.
    + injection Hc as ->. exists t. split; [by left|done].
    + destruct (collect (map outcome tasks)) as [e|l]; [|done].
      destruct (IH Hc) as (t' & Hin & Ht'). exists t'. split; [by right|done].
Qed.

End TaskFacts.

Section MassAddFacts.
Import MassAddModal.
Variable Nonce : Type.
Variable encrypt : Nonce -> string -> CryptoError + string.
Variable foreign_message : Exn -> option string.
Variable serviceName : string.

Lemma logged_nil w : Env.logged [] w = w.
Proof. destruct w. unfold Env.logged. cbn. by rewrite app_nil_r. Qed.

Lemma logged_logged cs cs' w :
  Env.logged cs' (Env.logged cs w) = Env.logged (cs ++ cs') w.
Proof. unfold Env.logged. cbn. by rewrite app_assoc. Qed.

Lemma outcome_encryptRow nonce_at user_id i row :
  outcome (encryptRow Nonce encrypt nonce_at serviceName user_id i row)
  = match sealRow Nonce encrypt nonce_at serviceName user_id i row with
    | inl e => inl (CryptoExn e)
    | inr p => inr p
    end.
Proof.
  unfold encryptRow, sealRow.
  destruct (Js.truthy (ApiKeyRow.password row)); cbn.
  - destruct (encrypt (nonce_at i FPassword) (ApiKeyRow.password row));
      cbn; [done|].
    by destruct (encrypt (nonce_at i FKey) (ApiKeyRow.api_key row)).
  - by destruct (encrypt (nonce_at i FKey) (ApiKeyRow.api_key row)).
Qed.

Lemma awaits_encryptRow nonce_at user_id i row :
  awaits (encryptRow Nonce encrypt nonce_at serviceName user_id i row) <= 2.
Proof.
  unfold encryptRow.
  destruct (Js.truthy (ApiKeyRow.password row)); cbn.
  - destruct (encrypt (nonce_at i FPassword) (ApiKeyRow.password row));
      cbn; [lia|].
    destruct (encrypt (nonce_at i FKey) (ApiKeyRow.api_key row)); cbn; lia.
  - destruct (encrypt (nonce_at i FKey) (ApiKeyRow.api_key row)); cbn; lia.
Qed.

Lemma started_encryptRow nonce_at user_id i row :
  started (encryptRow Nonce encrypt nonce_at serviceName user_id i row)
  = [firstCall row].
Proof.
  unfold encryptRow, firstCall.
  by destruct (Js.truthy (ApiKeyRow.password row)).
Qed.

Lemma started_resume_encryptRow nonce_at user_id i row :
  started
    (resume (encryptRow Nonce encrypt nonce_at serviceName user_id i row))
  = secondCalls Nonce encrypt nonce_at i row.
Proof.
  unfold encryptRow, secondCalls.
  destruct (Js.truthy (ApiKeyRow.password row)); cbn.
  - by destruct (encrypt (nonce_at i FPassword) (ApiKeyRow.password row)).
  - by destruct (encrypt (nonce_at i FKey) (ApiKeyRow.api_key row)).
Qed.

Lemma flat_map_map_imap {X Y Z} (g : Y -> list Z) (l : list X) :
  forall f : nat -> X -> Y,
    flat_map g (imap f l) = concat (imap (fun i x => g (f i x)) l).
Proof.
  induction l as [|x l IH]; intros f; cbn; [done|]. f_equal. apply IH.
Qed.

Lemma concat_imap_singleton {X Y} (h : X -> Y) (l : list X) :
  forall f : nat -> X -> list Y,
    (forall i x, f i x = [h x]) -> concat (imap f l) = map h l.
Proof.
  induction l as [|x l IH]; intros f Hf; cbn; [done|].
  rewrite Hf. cbn. f_equal. apply IH. intros i y. apply Hf.
Qed.

Lemma map_imap {X Y Z} (g : Y -> Z) (l : list X) :
  forall f : nat -> X -> Y, map g (imap f l) = imap (fun i x => g (f i x)) l.
Proof.
  induction l as [|x l IH]; intros f; cbn; [done|]. f_equal. apply IH.
Qed.

(** The calls the row callbacks make under [Promise.all]: the first call
    of every row, then the second calls. *)
Lemma allCalls_encryptRows nonce_at user_id rows :
  allCalls (imap (encryptRow Nonce encrypt nonce_at serviceName user_id) rows)
  = rowCalls Nonce encrypt nonce_at rows.
Proof.
  rewrite (allCalls_upto _ 2).
  2:{ unfold rounds. apply list_max_le, Forall_forall. intros n.
      rewrite list_elem_of_In, in_map_iff. intros (t & <- & Hin).
      apply list_elem_of_In, elem_of_lookup_imap in Hin as (i & row & -> & _).
      apply awaits_encryptRow. }
  cbn [seq flat_map after]. rewrite app_nil_r. unfold rowCalls. f_equal.
  - rewrite map_id, flat_map_map_imap. apply concat_imap_singleton.
    intros i row. apply started_encryptRow.
  - rewrite map_imap, flat_map_map_imap. f_equal. apply imap_ext.
    intros i row _. apply started_resume_encryptRow.
Qed.

(** [Promise.all] over the row callbacks resolves with the sealed rows. *)
Lemma allOutcome_encryptRows nonce_at user_id rows data :
  allOutcome
    (imap (encryptRow Nonce encrypt nonce_at serviceName user_id) rows)
  = inr data
  <-> imap (sealRow Nonce encrypt nonce_at serviceName user_id) rows
      = map inr data.
Proof.
  rewrite allOutcome_inr, map_imap.
  revert nonce_at data. induction rows as [|row rows IH];
    intros nonce_at data.
  - by destruct data.
  - destruct data as [|p data]; [done|]. cbn [imap map].
    rewrite outcome_encryptRow. split.
    + intros H. injection H as Hp H.
      apply (IH (nonce_at ∘ S)) in H. cbn in H. rewrite <- H. f_equal.
      by destruct (sealRow _ _ _ _ _ _ _) as [e|p']; [|injection Hp as ->].
    + intros H. injection H as Hp H. rewrite Hp.
      apply (IH (nonce_at ∘ S)) in H. cbn in H. by rewrite <- H.
Qed.

(** The rejection of [Promise.all] over the row callbacks is the failure
    of an [encrypt] call. *)
Lemma allOutcome_encryptRows_inl nonce_at user_id rows err :
  allOutcome
    (imap (encryptRow Nonce encrypt nonce_at serviceName user_id) rows)
  = inl err ->
  exists e, err = CryptoExn e.
Proof.
  intros H. apply allOutcome_inl in H as (t & Hin & Ht).
  apply list_elem_of_In, elem_of_lookup_imap in Hin as (i & row & -> & _).
  rewrite outcome_encryptRow in Ht.
  destruct (sealRow _ _ _ _ _ _ _) as [e|p]; [|done].
  injection Ht as <-. by exists e.
Qed.

Lemma handleSubmit_run nonce_at st w :
  handleSubmit Nonce encrypt nonce_at foreign_message serviceName (st, w)
  = (inr tt,
     match Backend.user (backend w) with
     | None =>
         (mkState (rows st) false "You must be logged in to add API keys",
          w)
     | Some u =>
         let validRows := List.filter valid (rows st) in
         if (length validRows =? 0)%nat then
           (mkState (rows st) false "At least one row must have an API key",
            w)
         else
           let w1 :=
             Env.logged (rowCalls Nonce encrypt nonce_at validRows) w in
           match allOutcome
                   (imap (encryptRow Nonce encrypt nonce_at serviceName u)
                      validRows)
           with
           | inl err =>
               (mkState (rows st) false (message_of foreign_message err),
                w1)
           | inr data =>
               match head (faults w) with
               | Some (Some msg) =>
                   (mkState (rows st) false
                      (message_of foreign_message (PersistenceExn msg)),
                    Env.with_faults (tail (faults w))
                      (Env.logged [CallInsert data] w1))
               | _ =>
                   (mkState (rows st) false "",
                    Env.logged [CallOnSuccess; CallOnClose]
                      (Env.with_backend (Backend.insert data)
                         (Env.with_faults (tail (faults w))
                            (Env.logged [CallInsert data] w1))))
               end
           end
     end).
Proof.
  unfold handleSubmit. run.
  destruct (Backend.user (backend w)) as [u|]; run; [|done].
  unfold setLoading, setError; cbn [rows loading error].
  destruct (length (List.filter valid (rows st)) =? 0)%nat; run; [done|].
  unfold all. run. rewrite allCalls_encryptRows.
  destruct (allOutcome _) as [err|data]; run; [done|].
  unfold Env.insert. run. rewrite request_run. run.
  cbn [faults Env.logged].
  destruct (faults w) as [|[msg|] fs]; cbn [head tail default]; run;
    unfold Env.logged, Env.with_faults, Env.with_backend; cbn;
    by rewrite <- ?app_assoc.
Qed.

Lemma sealRow_inr nonce_at u i row p :
  sealRow Nonce encrypt nonce_at serviceName u i row = inr p ->
  encrypt (nonce_at i FKey) (ApiKeyRow.api_key row)
  = inr (Payload.encrypted_api_key p)
  /\ (if Js.truthy (ApiKeyRow.password row)
      then encrypt (nonce_at i FPassword) (ApiKeyRow.password row)
           = inr (Payload.encrypted_password p)
      else Payload.encrypted_password p = "")
  /\ p = Payload.mk u serviceName (ApiKeyRow.email_username row)
           (Payload.encrypted_password p) (Payload.encrypted_api_key p)
           (ApiKeyRow.notes row) []
  /\ firstCall row :: secondCalls Nonce encrypt nonce_at i row
     = map CallEncrypt (secrets row).
Proof.
  unfold sealRow, firstCall, secondCalls, secrets.
  destruct (Js.truthy (ApiKeyRow.password row)).
  - destruct (encrypt (nonce_at i FPassword) _) as [|ep]; [done|].
    destruct (encrypt (nonce_at i FKey) _) as [|ek]; [done|].
    by intros [= <-].
  - destruct (encrypt (nonce_at i FKey) _) as [|ek]; [done|].
    by intros [= <-].
Qed.

Lemma encrypted_map (l : list string) : encrypted (map CallEncrypt l) = l.
Proof. induction l; cbn; by f_equal. Qed.

Lemma encrypted_app (l l' : list Call) :
  encrypted (l ++ l') = (encrypted l ++ encrypted l')%list.
Proof. apply omap_app. Qed.

(** When every row is sealed, [encrypt] has been called on the secrets of
    every row, once each. *)
Lemma sealed_calls u rows : forall nonce_at data,
  imap (sealRow Nonce encrypt nonce_at serviceName u) rows = map inr data ->
  Permutation (encrypted (rowCalls Nonce encrypt nonce_at rows))
    (flat_map secrets rows).
Proof.
  unfold rowCalls.
  induction rows as [|row rows IH]; intros nonce_at data H; [done|].
  destruct data as [|p data]; [done|]. cbn in H. injection H as Hp H.
  specialize (IH (nonce_at ∘ S) data H).
  apply sealRow_inr in Hp as (_ & _ & _ & Hp).
  apply (f_equal encrypted) in Hp. rewrite encrypted_map in Hp.
  cbn [imap concat flat_map map]. rewrite <- Hp.
  rewrite encrypted_app in IH.
  set (first := map firstCall rows) in *.
  set (second := secondCalls Nonce encrypt nonce_at 0 row).
  change (Permutation
            (encrypted ([firstCall row] ++ first ++ second
                        ++ concat (imap (secondCalls Nonce encrypt
                                           (nonce_at ∘ S)) rows)))
            (encrypted ([firstCall row] ++ second)
             ++ flat_map secrets rows)).
  rewrite !encrypted_app, <- !app_assoc. apply Permutation_app_head.
  rewrite Permutation_app_swap_app. by apply Permutation_app_head.
Qed.

(** While the rows are encrypted only [encrypt] is called. *)
Lemma rowCalls_encrypt_only rows : forall nonce_at c,
  In c (rowCalls Nonce encrypt nonce_at rows) ->
  exists p, c = CallEncrypt p.
Proof.
  unfold rowCalls. intros nonce_at c. rewrite in_app_iff, in_map_iff.
  intros [(row & <- & _)|H]; [by eexists|]. revert nonce_at H.
  induction rows as [|row rows IH]; intros nonce_at; cbn [imap concat];
    [intros []|].
  rewrite in_app_iff. intros [H|H]; [|by apply (IH (nonce_at ∘ S))].
  unfold secondCalls in H.
  destruct (Js.truthy _); cbn in H; [destruct (encrypt _ _); cbn in H|];
    repeat (destruct H as [<-|H]; [by eexists|]); destruct H.
Qed.

Lemma rowCalls_no_insert nonce_at rows data :
  ~ In (CallInsert data) (rowCalls Nonce encrypt nonce_at rows).
Proof. intros H. by apply rowCalls_encrypt_only in H as [p Hp]. Qed.

Lemma inserts_rowCalls nonce_at rows :
  inserts (rowCalls Nonce encrypt nonce_at rows) = [].
Proof.
  pose proof (rowCalls_encrypt_only rows nonce_at) as Henc.
  induction (rowCalls Nonce encrypt nonce_at rows) as [|c enc IH]; [done|].
  destruct (Henc c (or_introl eq_refl)) as [p ->]. cbn.
  apply IH. intros c' Hc'. apply Henc. by right.
Qed.

(** What a submission calls, by cases. *)
Lemma handleSubmit_calls nonce_at st w :
  exists st' w' calls,
    handleSubmit Nonce encrypt nonce_at foreign_message serviceName (st, w)
    = (inr tt, (st', w'))
    /\ trace w' = (trace w ++ calls)%list
    /\ rows st' = rows st
    /\ (List.filter valid (rows st) = [] ->
         Backend.user (backend w) <> None ->
         st' = mkState (rows st) false
                 "At least one row must have an API key"
         /\ w' = w /\ calls = [])
    /\ (Backend.user (backend w) = None ->
         st' = mkState (rows st) false
                 "You must be logged in to add API keys"
         /\ w' = w /\ calls = [])
    /\ (forall data, In (CallInsert data) calls ->
          exists u, Backend.user (backend w) = Some u
          /\ imap (sealRow Nonce encrypt nonce_at serviceName u)
               (List.filter valid (rows st)) = map inr data
          /\ inserts calls = [data]
          /\ Permutation (encrypted calls)
               (flat_map secrets (List.filter valid (rows st)))
          /\ (Env.served 0 w = true ->
              backend w' = Backend.insert data (backend w)))
    /\ (forall u data, Backend.user (backend w) = Some u ->
          List.filter valid (rows st) <> [] ->
          imap (sealRow Nonce encrypt nonce_at serviceName u)
            (List.filter valid (rows st)) = map inr data ->
          In (CallInsert data) calls).
Proof.
  rewrite handleSubmit_run.
  destruct (Backend.user (backend w)) as [u|] eqn:Hu.
  2:{ eexists _, w, []. rewrite app_nil_r. split; [reflexivity|].
      repeat split; try done. all: intros data []. }
  cbv zeta.
  set (validRows := List.filter valid (rows st)).
  destruct validRows as [|row0 rest] eqn:Hv.
  { eexists _, w, []. rewrite app_nil_r. split; [reflexivity|].
    repeat split; try done. all: intros data []. }
  rewrite <- Hv. replace (length validRows =? 0)%nat with false
    by (by rewrite Hv).
  assert (Hne : validRows <> []) by (by rewrite Hv).
  clear Hv row0 rest.
  set (enc := rowCalls Nonce encrypt nonce_at validRows).
  assert (Henc : forall data, ~ In (CallInsert data) enc).
  { intros data. apply rowCalls_no_insert. }
  destruct (allOutcome _) as [e|data] eqn:Hc.
  { eexists _, _, enc. split; [reflexivity|]. cbn.
    split; [done|]. split; [done|]. split; [done|]. split; [done|]. split.
    - intros data Hin. by apply Henc in Hin.
    - intros u' data [= <-] _ Hd. apply allOutcome_encryptRows in Hd.
      congruence. }
  apply allOutcome_encryptRows in Hc.
  pose proof (sealed_calls u _ nonce_at data Hc) as Hcalls.
  pose proof (inserts_rowCalls nonce_at validRows) as Hnone.
  fold enc in Hcalls, Hnone.
  assert (Hsame : forall u' data', Some u = Some u' ->
            imap (sealRow Nonce encrypt nonce_at serviceName u') validRows
            = map inr data' ->
            data' = data).
  { intros u' data' [= <-] Hd. rewrite Hc in Hd.
    clear -Hd. revert data' Hd.
    induction data as [|p data IH]; intros [|p' data'] H; try done.
    injection H as -> H. f_equal. by apply IH. }
  assert (Hlog : forall tl,
            (forall data', ~ In (CallInsert data') tl) ->
            inserts tl = [] -> encrypted tl = [] ->
            forall data', In (CallInsert data') (enc ++ CallInsert data :: tl) ->
            data' = data
            /\ inserts (enc ++ CallInsert data :: tl) = [data]
            /\ Permutation (encrypted (enc ++ CallInsert data :: tl))
                 (flat_map secrets validRows)).
  { intros tl Htl Hi He data' Hin.
    apply in_app_iff in Hin as [Hin|Hin]; [by apply Henc in Hin|].
    destruct Hin as [[= <-]|Hin]; [|by apply Htl in Hin].
    split; [done|]. rewrite encrypted_app. unfold inserts at 1.
    rewrite omap_app. fold (inserts enc). rewrite Hnone. cbn.
    fold (inserts tl). fold (encrypted tl). rewrite Hi, He, app_nil_r.
    done. }
  destruct (head (faults w)) as [[msg|]|] eqn:Hf.
  - eexists _, _, (enc ++ [CallInsert data])%list.
    split; [reflexivity|]. cbn. rewrite app_assoc.
    split; [done|]. split; [done|]. split; [done|]. split; [done|]. split.
    + intros data' Hin.
      destruct (Hlog [] (fun _ H => H) eq_refl eq_refl data' Hin)
        as (-> & Hi & He).
      exists u. repeat split; try done.
      unfold Env.served. destruct (faults w) as [|o fs]; cbn in *; [done|].
      by injection Hf as ->.
    + intros u' data' Hu' _ Hd.
      rewrite (Hsame u' data' Hu' Hd). apply in_app_iff. right. by left.
  - eexists _, _, (enc ++ [CallInsert data; CallOnSuccess; CallOnClose])%list.
    split; [reflexivity|]. cbn. rewrite <- !app_assoc. cbn.
    split; [done|]. split; [done|]. split; [done|]. split; [done|]. split.
    + intros data' Hin.
      destruct (Hlog [CallOnSuccess; CallOnClose]) with (data' := data')
        as (-> & Hi & He); try done.
      { intros d [|[|[]]]; done. }
      exists u. repeat split; done.
    + intros u' data' Hu' _ Hd.
      rewrite (Hsame u' data' Hu' Hd). apply in_app_iff. right. by left.
  - eexists _, _, (enc ++ [CallInsert data; CallOnSuccess; CallOnClose])%list.
    split; [reflexivity|]. cbn. rewrite <- !app_assoc. cbn.
    split; [done|]. split; [done|]. split; [done|]. split; [done|]. split.
    + intros data' Hin.
      destruct (Hlog [CallOnSuccess; CallOnClose]) with (data' := data')
        as (-> & Hi & He); try done.
      { intros d [|[|[]]]; done. }
      exists u. repeat split; done.
    + intros u' data' Hu' _ Hd.
      rewrite (Hsame u' data' Hu' Hd). apply in_app_iff. right. by left.
Qed.

End MassAddFacts.

(** [Promise.all] over the kept rows of the sample form when [encrypt]
    fails on both keys, with two failures that can be told apart.  The
    first calls of both rows are made before the second call of the first
    row, and the rejection reported is that of the last row: its key fails
    a round before the key of the first row does. *)
Example promise_all_first_failure_in_time :
  let encrypt (_ : unit) (s : string) : CryptoError + string :=
    if String.eqb s "sk-one" then inl EncryptionError
    else if String.eqb s "sk-abc" then inl DecryptionError
    else inr ("enc:" +:+ s) in
  let tasks :=
    imap (MassAddModal.encryptRow unit encrypt (fun _ _ => tt) "OpenAI"
            "user-1")
      (List.filter MassAddModal.valid (MassAddModal.rows Sample.form)) in
  MassAddModal.allCalls tasks
  = [CallEncrypt "hunter2"; CallEncrypt "sk-abc"; CallEncrypt "sk-one"]
  /\ map MassAddModal.outcome tasks
     = [inl (CryptoExn EncryptionError); inl (CryptoExn DecryptionError)]
  /\ MassAddModal.allOutcome tasks = inl (CryptoExn DecryptionError).
Proof. vm_compute. auto. Qed.



(** C2.  Whatever a submission of the mass-add form hands to [insert], each
    of its rows comes from one kept form row: [encrypted_api_key] is what
    [encrypt] returned for the row's [api_key], [encrypted_password] is what
    [encrypt] returned for the row's [password], or the empty string when
    the password is empty, and the other fields are the user id, the service
    name, the row's [email_username] and [notes] and an empty tag list.  No
    field of the payload holds a plaintext secret, and what is persisted is
    this payload. *)
Theorem mass_add_inserts_only_ciphertext (Nonce : Type)
    (encrypt : Nonce -> string -> CryptoError + string)
    (nonce_at : nat -> Field -> Nonce)
    (foreign_message : Exn -> option string) (serviceName : string)
    (st : MassAddModal.State) (w : World) :
  exists st' w' calls,
    MassAddModal.handleSubmit Nonce encrypt nonce_at foreign_message
      serviceName (st, w) = (inr tt, (st', w'))
    /\ trace w' = (trace w ++ calls)%list
    /\ forall data, In (CallInsert data) calls ->
         (Env.served 0 w = true ->
          backend w' = Backend.insert data (backend w))
         /\ forall i p, data !! i = Some p ->
              exists u row,
                Backend.user (backend w) = Some u
                /\ List.filter MassAddModal.valid (MassAddModal.rows st) !! i
                   = Some row
                /\ encrypt (nonce_at i FKey) (ApiKeyRow.api_key row)
                   = inr (Payload.encrypted_api_key p)
                /\ (if Js.truthy (ApiKeyRow.password row)
                    then encrypt (nonce_at i FPassword)
                           (ApiKeyRow.password row)
                         = inr (Payload.encrypted_password p)
                    else Payload.encrypted_password p = "")
                /\ p = Payload.mk u serviceName
                         (ApiKeyRow.email_username row)
                         (Payload.encrypted_password p)
                         (Payload.encrypted_api_key p)
                         (ApiKeyRow.notes row) [].
Proof.
  destruct (handleSubmit_calls Nonce encrypt foreign_message serviceName
              nonce_at st w)
    as (st' & w' & calls & Hrun & Htr & _ & _ & _ & Hins & _).
  exists st', w', calls. split; [done|]. split; [done|].
  intros data Hin. destruct (Hins data Hin) as (u & Hu & Hd & _ & _ & Hb).
  split; [done|]. intros i p Hp.
  assert (Hi : imap (MassAddModal.sealRow Nonce encrypt nonce_at serviceName u)
                 (List.filter MassAddModal.valid (MassAddModal.rows st)) !! i
               = Some (inr p)).
  { rewrite Hd, list_lookup_fmap, Hp. done. }
  rewrite list_lookup_imap in Hi.
  destruct (List.filter MassAddModal.valid (MassAddModal.rows st) !! i)
    as [row|] eqn:Hrow; [|done].
  injection Hi as Hi. apply sealRow_inr in Hi as (Hk & Hpw & Hfields & _).
  by exists u, row.
Qed.

Lemma mass_add_inserts_only_ciphertext_witness :
  exists st' w',
    MassAddModal.handleSubmit unit Sample.encrypt (fun _ _ => tt)
      (fun _ => None) "OpenAI" (Sample.form, Sample.world)
    = (inr tt, (st', w'))
    /\ trace w'
       = [CallEncrypt "hunter2"; CallEncrypt "sk-abc"; CallEncrypt "sk-one";
          CallInsert
            [Payload.mk "user-1" "OpenAI" "me@example.com" "enc:hunter2"
               "enc:sk-one" "first" [];
             Payload.mk "user-1" "OpenAI" "" "" "enc:sk-abc" "" []];
          CallOnSuccess; CallOnClose].
Proof.
  destruct (mass_add_inserts_only_ciphertext unit Sample.encrypt
              (fun _ _ => tt) (fun _ => None) "OpenAI" Sample.form
              Sample.world)
    as (st' & w' & calls & Hrun & _).
  exists st', w'. split; [exact Hrun|].
  vm_compute in Hrun. injection Hrun as _ <-. reflexivity.
Defined.

(** What the mass-add form does not always do with its non-blank rows.
    Both forms can be submitted: no [api_key] is the empty string.  Without
    a session, a form whose only [api_key] is three spaces reports the
    missing session, not the missing key, and the kept rows of a form are
    neither encrypted nor inserted.  With a session but no encryption key,
    both first calls of [encrypt] fail: nothing is inserted, and the key
    sk-one of the first row is never passed to [encrypt]. *)
Lemma mass_add_rows_not_always_inserted :
  MassAddModal.submittable Sample.blank = true
  /\ List.filter MassAddModal.valid (MassAddModal.rows Sample.blank) = []
  /\ MassAddModal.error
       (fst (Sample.submit (Some "K"%char) Sample.blank Sample.signedOut))
     = "You must be logged in to add API keys"
  /\ MassAddModal.submittable Sample.form = true
  /\ map ApiKeyRow.api_key
       (List.filter MassAddModal.valid (MassAddModal.rows Sample.form))
     = ["sk-one"; "sk-abc"]
  /\ trace (snd (Sample.submit (Some "K"%char) Sample.form Sample.signedOut))
     = []
  /\ trace (snd (Sample.submit None Sample.form Sample.world))
     = [CallEncrypt "hunter2"; CallEncrypt "sk-abc"]
  /\ backend (snd (Sample.submit None Sample.form Sample.world))
     = backend Sample.world.
Proof. vm_compute. repeat split. Qed.

(** C9 (amended).  For a submission of the mass-add form by a signed-in
    user: if an insert is attempted it is the only one, its rows are the
    encrypted forms of exactly the rows whose [api_key] is non-blank after
    trimming, in their order, and [encrypt] has been called on the secrets
    of exactly those rows, once each; the insert is attempted whenever some
    row is kept and every call of [encrypt] succeeds.  If no row is kept,
    nothing is encrypted, no insert is attempted, the world is as before and
    the error message is 'At least one row must have an API key'. *)
Theorem mass_add_keeps_nonblank_rows (Nonce : Type)
    (encrypt : Nonce -> string -> CryptoError + string)
    (nonce_at : nat -> Field -> Nonce)
    (foreign_message : Exn -> option string) (serviceName : string)
    (st : MassAddModal.State) (w : World) (u : string) :
  Backend.user (backend w) = Some u ->
  exists st' w' calls,
    MassAddModal.handleSubmit Nonce encrypt nonce_at foreign_message
      serviceName (st, w) = (inr tt, (st', w'))
    /\ trace w' = (trace w ++ calls)%list
    /\ (forall data, In (CallInsert data) calls ->
          MassAddModal.inserts calls = [data]
          /\ imap (MassAddModal.sealRow Nonce encrypt nonce_at serviceName u)
               (List.filter MassAddModal.valid (MassAddModal.rows st))
             = map inr data
          /\ length data
             = length (List.filter MassAddModal.valid (MassAddModal.rows st))
          /\ Permutation (MassAddModal.encrypted calls)
               (flat_map MassAddModal.secrets
                  (List.filter MassAddModal.valid (MassAddModal.rows st))))
    /\ (List.filter MassAddModal.valid (MassAddModal.rows st) <> [] ->
        forall data,
          imap (MassAddModal.sealRow Nonce encrypt nonce_at serviceName u)
            (List.filter MassAddModal.valid (MassAddModal.rows st))
          = map inr data ->
          In (CallInsert data) calls)
    /\ (List.filter MassAddModal.valid (MassAddModal.rows st) = [] ->
        calls = [] /\ w' = w
        /\ st' = MassAddModal.mkState (MassAddModal.rows st) false
                   "At least one row must have an API key").
Proof.
  intros Hu.
  destruct (handleSubmit_calls Nonce encrypt foreign_message serviceName
              nonce_at st w)
    as (st' & w' & calls & Hrun & Htr & _ & Hblank & _ & Hins & Hatt).
  exists st', w', calls. split; [done|]. split; [done|]. split; [|split].
  - intros data Hin. destruct (Hins data Hin) as (u' & Hu' & Hd & Hi & He & _).
    rewrite Hu in Hu'. injection Hu' as <-.
    split; [done|]. split; [done|]. split; [|done].
    apply (f_equal length) in Hd. by rewrite length_imap, length_map in Hd.
  - intros Hne data Hd. by apply (Hatt u).
  - intros Hv. destruct (Hblank Hv) as (-> & -> & ->); [by rewrite Hu|done].
Qed.

Lemma mass_add_keeps_nonblank_rows_witness :
  Backend.user (backend Sample.world) = Some "user-1" /\
  exists st' w' calls,
    MassAddModal.handleSubmit unit Sample.encrypt (fun _ _ => tt)
      (fun _ => None) "OpenAI" (Sample.form, Sample.world)
    = (inr tt, (st', w'))
    /\ trace w' = (trace Sample.world ++ calls)%list
    /\ MassAddModal.inserts calls
       = [[Payload.mk "user-1" "OpenAI" "me@example.com" "enc:hunter2"
             "enc:sk-one" "first" [];
           Payload.mk "user-1" "OpenAI" "" "" "enc:sk-abc" "" []]]
    /\ Permutation (MassAddModal.encrypted calls)
         ["hunter2"; "sk-one"; "sk-abc"].
Proof.
  split; [reflexivity|].
  destruct (mass_add_keeps_nonblank_rows unit Sample.encrypt (fun _ _ => tt)
              (fun _ => None) "OpenAI" Sample.form Sample.world "user-1"
              eq_refl)
    as (st' & w' & calls & Hrun & Htr & Hins & Hatt & _).
  exists st', w', calls. split; [exact Hrun|]. split; [exact Htr|].
  assert (Hin : In (CallInsert
                      [Payload.mk "user-1" "OpenAI" "me@example.com"
                         "enc:hunter2" "enc:sk-one" "first" [];
                       Payload.mk "user-1" "OpenAI" "" "" "enc:sk-abc" "" []])
                  calls)
    by (apply Hatt; [discriminate|reflexivity]).
  destruct (Hins _ Hin) as (Hi & _ & _ & He).
  split; [exact Hi|exact He].
Defined.




(** * Further properties *)

(** ** Rows of the mass-add form *)

Section RowFacts.
Import MassAddModal.

Lemma rows_setRows v s : rows (setRows v s) = v.
Proof. done. Qed.

Lemma filter_other_ids (id : string) (l : list ApiKeyRow.t) :
  ~ In id (map ApiKeyRow.id l) ->
  List.filter (fun row => negb (String.eqb (ApiKeyRow.id row) id)) l = l.
Proof.
  induction l as [|r l IH]; cbn [List.filter map In]; [done|]. intros Hn.
  destruct (String.eqb_spec (ApiKeyRow.id r) id) as [E|Hne]; cbn [negb].
  - destruct Hn. by left.
  - f_equal. apply IH. tauto.
Qed.

Lemma map_id_filter (P : ApiKeyRow.t -> bool) (l : list ApiKeyRow.t) :
  NoDup (map ApiKeyRow.id l) -> NoDup (map ApiKeyRow.id (List.filter P l)).
Proof.
  induction l as [|r l IH]; cbn; [done|].
  intros [Hn Hd]%NoDup_cons. destruct (P r); cbn; [|by apply IH].
  apply NoDup_cons. split; [|by apply IH].
  intros Hin. apply Hn. apply list_elem_of_In in Hin.
  apply list_elem_of_In. apply in_map_iff in Hin as (x & Hx & Hin).
  apply in_map_iff. exists x. split; [done|].
  apply List.filter_In in Hin. tauto.
Qed.

Lemma withField_id f v row :
  f <> RId -> ApiKeyRow.id (withField f v row) = ApiKeyRow.id row.
Proof. by destruct f. Qed.

Lemma updateRow_ids id f v s :
  f <> RId -> Rows.ids (updateRow id f v s) = Rows.ids s.
Proof.
  intros Hf. unfold Rows.ids, updateRow. rewrite rows_setRows, map_map.
  apply map_ext. intros row.
  destruct (String.eqb _ _); [by apply withField_id|done].
Qed.

End RowFacts.

(** X1.  The mass-add form always shows at least one row and never two rows
    with the same id: this holds when the form opens and is kept by adding
    a row with a fresh id, by removing a row and by editing any field other
    than the id. *)
Theorem form_rows_invariant (uuid id value : string)
    (f : MassAddModal.RowField) (s : MassAddModal.State) :
  Rows.wellFormed (MassAddModal.initial uuid)
  /\ (Rows.wellFormed s -> ~ In uuid (Rows.ids s) ->
      Rows.wellFormed (MassAddModal.addRow uuid s))
  /\ (Rows.wellFormed s -> Rows.wellFormed (MassAddModal.removeRow id s))
  /\ (Rows.wellFormed s -> f <> MassAddModal.RId ->
      Rows.wellFormed (MassAddModal.updateRow id f value s)).
Proof.
  unfold Rows.wellFormed. split; [|split; [|split]].
  - split; [done|]. cbn. apply NoDup_cons. split; [apply not_elem_of_nil|].
    apply NoDup_nil_2.
  - intros [Hne Hd] Hfresh. unfold MassAddModal.addRow, Rows.ids in *.
    rewrite rows_setRows. split; [by destruct (MassAddModal.rows s)|].
    rewrite map_app. apply NoDup_app. split; [done|]. split.
    + intros x Hx [->|[]%elem_of_nil]%elem_of_cons.
      apply Hfresh. by apply list_elem_of_In.
    + cbn. apply NoDup_cons. split; [apply not_elem_of_nil|apply NoDup_nil_2].
  - intros [Hne Hd]. unfold MassAddModal.removeRow.
    destruct (length (MassAddModal.rows s) =? 1)%nat eqn:Hlen; [done|].
    unfold Rows.ids in *. rewrite rows_setRows. split; [|by apply map_id_filter].
    destruct (MassAddModal.rows s) as [|r1 [|r2 l]]; [done|done|].
    cbn in Hd. apply NoDup_cons in Hd as [Hn _].
    assert (H12 : ApiKeyRow.id r1 <> ApiKeyRow.id r2).
    { intros E. apply Hn. rewrite E. by left. }
    cbn. destruct (String.eqb_spec (ApiKeyRow.id r1) id) as [E1|]; cbn;
      [|done].
    destruct (String.eqb_spec (ApiKeyRow.id r2) id) as [E2|]; cbn;
      [congruence|done].
  - intros [Hne Hd] Hf. rewrite updateRow_ids by done. split; [|done].
    unfold MassAddModal.updateRow. rewrite rows_setRows.
    by destruct (MassAddModal.rows s).
Qed.

Lemma form_rows_invariant_witness :
  Rows.wellFormed Sample.form
  /\ Rows.wellFormed (MassAddModal.addRow "d" Sample.form)
  /\ Rows.wellFormed (MassAddModal.removeRow "b" Sample.form)
  /\ Rows.wellFormed
       (MassAddModal.updateRow "b" MassAddModal.RApiKey "sk-two" Sample.form).
Proof.
  assert (Hw : Rows.wellFormed Sample.form).
  { split; [discriminate|]. apply (bool_decide_unpack _). vm_compute.
    exact I. }
  destruct (form_rows_invariant "d" "b" "sk-two" MassAddModal.RApiKey
              Sample.form) as (_ & Hadd & Hrem & Hupd).
  split; [exact Hw|]. split; [|split].
  - apply Hadd; [exact Hw|]. cbn. intros [H|[H|[H|[]]]]; discriminate.
  - apply Hrem. exact Hw.
  - apply Hupd; [exact Hw|discriminate].
Defined.

(** X2.  Removing the row that was just added gives the form back, when the
    new row's id is fresh and the form had a row. *)
Theorem removeRow_addRow (uuid : string) (s : MassAddModal.State) :
  MassAddModal.rows s <> [] ->
  ~ In uuid (Rows.ids s) ->
  MassAddModal.removeRow uuid (MassAddModal.addRow uuid s) = s.
Proof.
  intros Hne Hfresh. unfold MassAddModal.removeRow, MassAddModal.addRow.
  rewrite rows_setRows, length_app. cbn [length].
  replace (length (MassAddModal.rows s) + 1 =? 1)%nat with false.
  2:{ symmetry. apply Nat.eqb_neq.
      destruct (MassAddModal.rows s); [done|cbn; lia]. }
  rewrite List.filter_app, filter_other_ids by done. cbn.
  rewrite String.eqb_refl. cbn. rewrite app_nil_r. by destruct s.
Qed.

Lemma removeRow_addRow_witness :
  MassAddModal.rows Sample.form <> []
  /\ ~ In "d" (Rows.ids Sample.form)
  /\ MassAddModal.removeRow "d" (MassAddModal.addRow "d" Sample.form)
     = Sample.form.
Proof.
  assert (H1 : MassAddModal.rows Sample.form <> []) by discriminate.
  assert (H2 : ~ In "d" (Rows.ids Sample.form)).
  { cbn. intros [H|[H|[H|[]]]]; discriminate. }
  split; [exact H1|]. split; [exact H2|].
  exact (removeRow_addRow "d" Sample.form H1 H2).
Defined.

(** X3.  Editing a field of a row changes nothing else: the number and order
    of rows, the loading flag and the error stay, rows with another id are
    untouched, and in a row with the edited id every other field keeps its
    value while the edited field takes the new one. *)
Theorem updateRow_frame (id value : string) (f : MassAddModal.RowField)
    (s : MassAddModal.State) :
  length (MassAddModal.rows (MassAddModal.updateRow id f value s))
  = length (MassAddModal.rows s)
  /\ MassAddModal.loading (MassAddModal.updateRow id f value s)
     = MassAddModal.loading s
  /\ MassAddModal.error (MassAddModal.updateRow id f value s)
     = MassAddModal.error s
  /\ forall i row,
       MassAddModal.rows s !! i = Some row ->
       exists row',
         MassAddModal.rows (MassAddModal.updateRow id f value s) !! i
         = Some row'
         /\ (ApiKeyRow.id row <> id -> row' = row)
         /\ (ApiKeyRow.id row = id -> Rows.getField f row' = value)
         /\ forall g, g <> f -> Rows.getField g row' = Rows.getField g row.
Proof.
  unfold MassAddModal.updateRow. rewrite rows_setRows, length_map.
  split; [done|]. split; [done|]. split; [done|].
  intros i row Hrow. rewrite list_lookup_fmap, Hrow. cbn.
  eexists. split; [reflexivity|].
  destruct (String.eqb_spec (ApiKeyRow.id row) id) as [E|E].
  - split; [done|]. split; [intros _; by destruct f|].
    intros g Hg. by destruct f, g.
  - split; [done|]. split; [done|]. done.
Qed.

(** ** Submitting the mass-add form *)

Section SubmitFacts.
Import MassAddModal.
Variable Nonce : Type.
Variable encrypt : Nonce -> string -> CryptoError + string.
Variable foreign_message : Exn -> option string.
Variable serviceName : string.

(** The outcome of a submission once the session and the kept rows are
    known to be there. *)
Lemma handleSubmit_signed_in nonce_at st w u :
  Backend.user (backend w) = Some u ->
  List.filter valid (rows st) <> [] ->
  handleSubmit Nonce encrypt nonce_at foreign_message serviceName (st, w)
  = (inr tt,
     let validRows := List.filter valid (rows st) in
     let w1 := Env.logged (rowCalls Nonce encrypt nonce_at validRows) w in
     match allOutcome
             (imap (encryptRow Nonce encrypt nonce_at serviceName u)
                validRows)
     with
     | inl err =>
         (mkState (rows st) false (message_of foreign_message err), w1)
     | inr data =>
         match head (faults w) with
         | Some (Some msg) =>
             (mkState (rows st) false
                (message_of foreign_message (PersistenceExn msg)),
              Env.with_faults (tail (faults w))
                (Env.logged [CallInsert data] w1))
         | _ =>
             (mkState (rows st) false "",
              Env.logged [CallOnSuccess; CallOnClose]
                (Env.with_backend (Backend.insert data)
                   (Env.with_faults (tail (faults w))
                      (Env.logged [CallInsert data] w1))))
         end
     end).
Proof.
  intros Hu Hne. rewrite handleSubmit_run, Hu. cbv zeta.
  destruct (List.filter valid (rows st)) as [|r l]; [done|]. done.
Qed.

End SubmitFacts.

(** X4.  A submission of the mass-add form never rejects: whatever the
    session, [encrypt] and the network do, [handleSubmit] resolves with the
    loading flag off and the form rows as they were, and it touches neither
    the clipboard nor the timers nor the session. *)
Theorem handleSubmit_always_resolves (Nonce : Type)
    (encrypt : Nonce -> string -> CryptoError + string)
    (nonce_at : nat -> Field -> Nonce)
    (foreign_message : Exn -> option string) (serviceName : string)
    (st : MassAddModal.State) (w : World) :
  exists st' w',
    MassAddModal.handleSubmit Nonce encrypt nonce_at foreign_message
      serviceName (st, w) = (inr tt, (st', w'))
    /\ MassAddModal.loading st' = false
    /\ MassAddModal.rows st' = MassAddModal.rows st
    /\ clipboard w' = clipboard w
    /\ timers w' = timers w
    /\ Backend.user (backend w') = Backend.user (backend w).
Proof.
  rewrite handleSubmit_run.
  assert (Hdone : forall st' w',
            MassAddModal.loading st' = false ->
            MassAddModal.rows st' = MassAddModal.rows st ->
            clipboard w' = clipboard w -> timers w' = timers w ->
            Backend.user (backend w') = Backend.user (backend w) ->
            exists st'' w'',
              ((inr tt, (st', w'))
               : (Exn + unit) * (MassAddModal.State * World))
              = (inr tt, (st'', w''))
              /\ MassAddModal.loading st'' = false
              /\ MassAddModal.rows st'' = MassAddModal.rows st
              /\ clipboard w'' = clipboard w
              /\ timers w'' = timers w
              /\ Backend.user (backend w'') = Backend.user (backend w))
    by (intros st' w' ?????; by exists st', w').
  destruct (Backend.user (backend w)) as [u|] eqn:Hu; [|by apply Hdone].
  cbv zeta. destruct (length _ =? 0)%nat; [by apply Hdone|].
  destruct (MassAddModal.allOutcome _) as [e|data]; [by apply Hdone|].
  destruct (head (faults w)) as [[msg|]|]; by apply Hdone.
Qed.

(** X5.  A submission stores all kept rows or none.  If [onSuccess] or
    [onClose] is called, the calls end with one insert followed by
    [onSuccess] and [onClose], the payload of that insert has been stored and
    the error message is empty; if [onClose] is not called, the table is as
    it was before. *)
Theorem handleSubmit_all_or_nothing (Nonce : Type)
    (encrypt : Nonce -> string -> CryptoError + string)
    (nonce_at : nat -> Field -> Nonce)
    (foreign_message : Exn -> option string) (serviceName : string)
    (st : MassAddModal.State) (w : World) :
  exists st' w' calls,
    MassAddModal.handleSubmit Nonce encrypt nonce_at foreign_message
      serviceName (st, w) = (inr tt, (st', w'))
    /\ trace w' = (trace w ++ calls)%list
    /\ (In CallOnSuccess calls \/ In CallOnClose calls ->
        exists data before,
          calls = (before ++ [CallInsert data; CallOnSuccess; CallOnClose])%list
          /\ MassAddModal.inserts before = []
          /\ backend w' = Backend.insert data (backend w)
          /\ MassAddModal.error st' = "")
    /\ (~ In CallOnClose calls -> backend w' = backend w).
Proof.
  rewrite handleSubmit_run.
  destruct (Backend.user (backend w)) as [u|] eqn:Hu.
  2:{ eexists _, _, []. rewrite app_nil_r. split; [reflexivity|].
      split; [done|]. split; [intros [[]|[]]|done]. }
  cbv zeta. destruct (length _ =? 0)%nat.
  { eexists _, _, []. rewrite app_nil_r. split; [reflexivity|].
    split; [done|]. split; [intros [[]|[]]|done]. }
  set (enc := MassAddModal.rowCalls _ _ _ _).
  assert (Henc : forall c, In c enc -> exists p, c = CallEncrypt p)
    by (intros c; apply rowCalls_encrypt_only).
  assert (Hins : MassAddModal.inserts enc = []).
  { clear -Henc. induction enc as [|c enc IH]; [done|].
    destruct (Henc c (or_introl eq_refl)) as [p ->]. cbn.
    apply IH. intros c' Hc'. apply Henc. by right. }
  destruct (MassAddModal.allOutcome _) as [e|data].
  { eexists _, _, enc. split; [reflexivity|]. split; [done|].
    split; [|done].
    intros [H|H]; apply Henc in H as [p Hp]; discriminate. }
  destruct (head (faults w)) as [[msg|]|].
  - eexists _, _, (enc ++ [CallInsert data])%list. split; [reflexivity|].
    cbn. rewrite app_assoc. split; [done|]. split; [|done].
    intros [H|H]; apply in_app_iff in H as [H|[H|[]]];
      try discriminate; apply Henc in H as [p Hp]; discriminate.
  - eexists _, _, (enc ++ [CallInsert data; CallOnSuccess; CallOnClose])%list.
    split; [reflexivity|]. cbn. rewrite <- !app_assoc. split; [done|]. split.
    + intros _. by exists data, enc.
    + intros Hn. destruct Hn. apply in_app_iff. right. cbn. tauto.
  - eexists _, _, (enc ++ [CallInsert data; CallOnSuccess; CallOnClose])%list.
    split; [reflexivity|]. cbn. rewrite <- !app_assoc. split; [done|]. split.
    + intros _. by exists data, enc.
    + intros Hn. destruct Hn. apply in_app_iff. right. cbn. tauto.
Qed.

Section ListAfterInsert.
Import Backend.

Lemma owned_insert data b r : owned (insert data b) r = owned b r.
Proof. done. Qed.

Lemma select_insert_old q data b r :
  In r (select q b) -> In r (select q (insert data b)).
Proof.
  rewrite !select_In, owned_insert. cbn [insert api_keys].
  rewrite in_app_iff. tauto.
Qed.

Lemma select_insert_new q data b i p :
  data !! i = Some p ->
  user b = Some (Payload.user_id p) ->
  matches q (store b (N.of_nat i) p) = true ->
  In (store b (N.of_nat i) p) (select q (insert data b)).
Proof.
  intros Hp Hu Hm. rewrite select_In, owned_insert. split; [|split; [|done]].
  - cbn [insert api_keys]. apply in_app_iff. right.
    apply list_elem_of_In, list_elem_of_lookup. exists i.
    by rewrite list_lookup_imap, Hp.
  - unfold owned. rewrite Hu. apply String.eqb_refl.
Qed.

End ListAfterInsert.

(** X6.  Records added by mass-add show up on the service page.  When a
    signed-in user's submission calls [onSuccess], the list query of the
    service page for that service returns every record it returned before
    and, for each kept form row, a record of that user and service with the
    row's email and notes and the ciphertexts [encrypt] returned for its
    secrets; [fetchApiKeys], which the page passes as [onSuccess], puts that
    query's result on display when it is served. *)
Theorem mass_add_then_service_list (Nonce : Type)
    (encrypt : Nonce -> string -> CryptoError + string)
    (nonce_at : nat -> Field -> Nonce)
    (foreign_message : Exn -> option string) (serviceName : string)
    (st : MassAddModal.State) (w : World) (u : string) :
  Backend.user (backend w) = Some u ->
  exists st' w' calls,
    MassAddModal.handleSubmit Nonce encrypt nonce_at foreign_message
      serviceName (st, w) = (inr tt, (st', w'))
    /\ trace w' = (trace w ++ calls)%list
    /\ (In CallOnSuccess calls ->
        (forall r,
           In r (Backend.select (WebsitePage.listQuery serviceName)
                   (backend w)) ->
           In r (Backend.select (WebsitePage.listQuery serviceName)
                   (backend w')))
        /\ (forall i row,
              List.filter MassAddModal.valid (MassAddModal.rows st) !! i
              = Some row ->
              exists r,
                In r (Backend.select (WebsitePage.listQuery serviceName)
                        (backend w'))
                /\ ApiKey.user_id r = u
                /\ ApiKey.service_name r = serviceName
                /\ ApiKey.email_username r = ApiKeyRow.email_username row
                /\ ApiKey.notes r = ApiKeyRow.notes row
                /\ encrypt (nonce_at i FKey) (ApiKeyRow.api_key row)
                   = inr (ApiKey.encrypted_api_key r)
                /\ (if Js.truthy (ApiKeyRow.password row)
                    then encrypt (nonce_at i FPassword)
                           (ApiKeyRow.password row)
                         = inr (ApiKey.encrypted_password r)
                    else ApiKey.encrypted_password r = ""))
        /\ (forall page : Page.t,
              Env.served 0 w' = true ->
              Page.apiKeys
                (fst (snd (MainDashboard.fetchApiKeys
                             (WebsitePage.listQuery serviceName) (page, w'))))
              = Backend.select (WebsitePage.listQuery serviceName)
                  (backend w'))).
Proof.
  intros Hu. rewrite handleSubmit_run, Hu. cbv zeta.
  assert (Hfetch : forall (page : Page.t) w',
            Env.served 0 w' = true ->
            Page.apiKeys
              (fst (snd (MainDashboard.fetchApiKeys
                           (WebsitePage.listQuery serviceName) (page, w'))))
            = Backend.select (WebsitePage.listQuery serviceName) (backend w')).
  { intros page w' Hs. rewrite fetchApiKeys_run. cbn [fst snd].
    unfold Env.served in Hs.
    destruct (faults w') as [|[msg|] fs]; cbn in *; done. }
  destruct (length _ =? 0)%nat.
  { eexists _, _, []. rewrite app_nil_r. split; [reflexivity|].
    split; [done|]. intros []. }
  set (enc := MassAddModal.rowCalls _ _ _ _).
  assert (Henc : forall c, In c enc -> exists p, c = CallEncrypt p)
    by (intros c; apply rowCalls_encrypt_only).
  destruct (MassAddModal.allOutcome _) as [e|data] eqn:Hc.
  { eexists _, _, enc. split; [reflexivity|]. split; [done|].
    intros H. apply Henc in H as [p Hp]. discriminate. }
  apply allOutcome_encryptRows in Hc.
  assert (Hrows : forall w',
    backend w' = Backend.insert data (backend w) ->
    (forall r,
       In r (Backend.select (WebsitePage.listQuery serviceName) (backend w)) ->
       In r (Backend.select (WebsitePage.listQuery serviceName) (backend w')))
    /\ (forall i row,
          List.filter MassAddModal.valid (MassAddModal.rows st) !! i
          = Some row ->
          exists r,
            In r (Backend.select (WebsitePage.listQuery serviceName)
                    (backend w'))
            /\ ApiKey.user_id r = u
            /\ ApiKey.service_name r = serviceName
            /\ ApiKey.email_username r = ApiKeyRow.email_username row
            /\ ApiKey.notes r = ApiKeyRow.notes row
            /\ encrypt (nonce_at i FKey) (ApiKeyRow.api_key row)
               = inr (ApiKey.encrypted_api_key r)
            /\ (if Js.truthy (ApiKeyRow.password row)
                then encrypt (nonce_at i FPassword) (ApiKeyRow.password row)
                     = inr (ApiKey.encrypted_password r)
                else ApiKey.encrypted_password r = ""))).
  { intros w' ->. split; [intros r; apply select_insert_old|].
    intros i row Hrow.
    assert (Hi : (map inr data : list (CryptoError + Payload.t)) !! i
                 = Some (MassAddModal.sealRow Nonce encrypt nonce_at
                           serviceName u i row)).
    { rewrite <- Hc, list_lookup_imap, Hrow. done. }
    rewrite list_lookup_fmap in Hi.
    destruct (data !! i) as [p|] eqn:Hp; [|done]. injection Hi as Hi.
    symmetry in Hi. apply sealRow_inr in Hi as (Hk & Hpw & Hfields & _).
    exists (Backend.store (backend w) (N.of_nat i) p).
    split.
    { apply select_insert_new; [done| |].
      - rewrite Hfields. cbn. done.
      - unfold Backend.matches. cbn. rewrite Hfields. cbn.
        apply String.eqb_refl. }
    cbn. rewrite Hfields at 1 2 3 4. cbn. done. }
  destruct (head (faults w)) as [[msg|]|].
  - eexists _, _, (enc ++ [CallInsert data])%list. split; [reflexivity|].
    cbn. rewrite app_assoc. split; [done|].
    intros H. apply in_app_iff in H as [H|[H|[]]]; [|discriminate].
    apply Henc in H as [p Hp]. discriminate.
  - eexists _, _, (enc ++ [CallInsert data; CallOnSuccess; CallOnClose])%list.
    split; [reflexivity|]. cbn [trace Env.logged Env.with_backend
      Env.with_faults]. rewrite <- !app_assoc. split; [done|]. intros _.
    destruct (Hrows (Env.logged [CallOnSuccess; CallOnClose]
                (Env.with_backend (Backend.insert data)
                   (Env.with_faults (tail (faults w))
                      (Env.logged [CallInsert data] (Env.logged enc w))))))
      as [Hold Hnew]; [done|].
    split; [exact Hold|]. split; [exact Hnew|]. intros page. apply Hfetch.
  - eexists _, _, (enc ++ [CallInsert data; CallOnSuccess; CallOnClose])%list.
    split; [reflexivity|]. cbn [trace Env.logged Env.with_backend
      Env.with_faults]. rewrite <- !app_assoc. split; [done|]. intros _.
    destruct (Hrows (Env.logged [CallOnSuccess; CallOnClose]
                (Env.with_backend (Backend.insert data)
                   (Env.with_faults (tail (faults w))
                      (Env.logged [CallInsert data] (Env.logged enc w))))))
      as [Hold Hnew]; [done|].
    split; [exact Hold|]. split; [exact Hnew|]. intros page. apply Hfetch.
Qed.

Lemma mass_add_then_service_list_witness :
  Backend.user (backend Sample.world) = Some "user-1"
  /\ exists st' w',
       MassAddModal.handleSubmit unit Sample.encrypt (fun _ _ => tt)
         (fun _ => None) "OpenAI" (Sample.form, Sample.world)
       = (inr tt, (st', w'))
       /\ map ApiKey.encrypted_api_key
            (Backend.select (WebsitePage.listQuery "OpenAI") (backend w'))
          = ["enc:sk-one"; "enc:sk-abc"].
Proof.
  split; [reflexivity|].
  destruct (mass_add_then_service_list unit Sample.encrypt (fun _ _ => tt)
              (fun _ => None) "OpenAI" Sample.form Sample.world "user-1"
              eq_refl)
    as (st' & w' & calls & Hrun & _).
  exists st', w'. split; [exact Hrun|].
  vm_compute in Hrun. injection Hrun as _ <-. reflexivity.
Defined.

(** ** Revealing and copying, further *)

(** X7.  A failed [decrypt] during reveal leaves the field Hidden: the
    handler is rejected with the failure after that one call, the component
    state is exactly as before (nothing is cached, nothing is shown), and
    the next attempt calls [decrypt] again. *)
Theorem reveal_failure_stays_hidden (decrypt : string -> CryptoError + string)
    (id : string) (f : Field) (encrypted : string) (st : Page.t) (w : World)
    (e : CryptoError) :
  id ∉ Page.visible f st ->
  Page.decryptedData st !! id = None ->
  decrypt encrypted = inl e ->
  exists w',
    MainDashboard.toggleVisibility decrypt id f encrypted (st, w)
    = (inl (CryptoExn e), (st, w'))
    /\ w' = Env.logged [CallDecrypt encrypted] w
    /\ MainDashboard.toggleVisibility decrypt id f encrypted (st, w')
       = (inl (CryptoExn e),
          (st, Env.logged [CallDecrypt encrypted; CallDecrypt encrypted] w)).
Proof.
  intros Hhid Hc He. eexists. split; [|split; [reflexivity|]].
  - rewrite toggle_hidden_fresh by done. by rewrite He.
  - rewrite toggle_hidden_fresh by done. rewrite He.
    unfold Env.logged. cbn. by rewrite <- app_assoc.
Qed.

Lemma reveal_failure_stays_hidden_witness :
  ("r1" ∉ Page.visible FKey Page.initial)
  /\ Page.decryptedData Page.initial !! "r1" = None
  /\ Sample.decrypt "garbled" = inl DecryptionError
  /\ exists w',
       MainDashboard.toggleVisibility Sample.decrypt "r1" FKey "garbled"
         (Page.initial, Sample.world)
       = (inl (CryptoExn DecryptionError), (Page.initial, w')).
Proof.
  assert (H1 : "r1" ∉ Page.visible FKey Page.initial)
    by apply not_elem_of_empty.
  assert (H2 : Page.decryptedData Page.initial !! "r1" = None)
    by apply lookup_empty.
  assert (H3 : Sample.decrypt "garbled" = inl DecryptionError)
    by reflexivity.
  split; [exact H1|]. split; [exact H2|]. split; [exact H3|].
  destruct (reveal_failure_stays_hidden Sample.decrypt "r1" FKey "garbled"
              Page.initial Sample.world DecryptionError H1 H2 H3)
    as (w' & Hrun & _).
  exists w'. exact Hrun.
Defined.

(** X8.  Toggling one field of one record touches nothing else: whatever the
    outcome, cached plaintexts are neither dropped nor overwritten, the
    visibility set of the other field is unchanged, no other record of the
    same field changes visibility, the list, the search text and the copied
    indicator stay, and the table, the clipboard and the timers are left
    alone. *)
Theorem toggleVisibility_frame (decrypt : string -> CryptoError + string)
    (id : string) (f : Field) (encrypted : string) (st : Page.t) (w : World) :
  exists r st' w',
    MainDashboard.toggleVisibility decrypt id f encrypted (st, w)
    = (r, (st', w'))
    /\ Page.decryptedData st ⊆ Page.decryptedData st'
    /\ (forall g, g <> f -> Page.visible g st' = Page.visible g st)
    /\ (forall id', id' <> id ->
          id' ∈ Page.visible f st' <-> id' ∈ Page.visible f st)
    /\ Page.apiKeys st' = Page.apiKeys st
    /\ Page.searchQuery st' = Page.searchQuery st
    /\ Page.copiedId st' = Page.copiedId st
    /\ backend w' = backend w
    /\ clipboard w' = clipboard w
    /\ timers w' = timers w.
Proof.
  assert (Hset : forall v st0,
            Page.decryptedData st ⊆ Page.decryptedData st0 ->
            Page.visible f st0 = Page.visible f st ->
            (forall g, g <> f -> Page.visible g st0 = Page.visible g st) ->
            Page.apiKeys st0 = Page.apiKeys st ->
            Page.searchQuery st0 = Page.searchQuery st ->
            Page.copiedId st0 = Page.copiedId st ->
            (forall id', id' <> id -> id' ∈ v <-> id' ∈ Page.visible f st) ->
            Page.decryptedData st ⊆ Page.decryptedData (Page.setVisible f v st0)
            /\ (forall g, g <> f ->
                  Page.visible g (Page.setVisible f v st0) = Page.visible g st)
            /\ (forall id', id' <> id ->
                  id' ∈ Page.visible f (Page.setVisible f v st0)
                  <-> id' ∈ Page.visible f st)
            /\ Page.apiKeys (Page.setVisible f v st0) = Page.apiKeys st
            /\ Page.searchQuery (Page.setVisible f v st0) = Page.searchQuery st
            /\ Page.copiedId (Page.setVisible f v st0) = Page.copiedId st).
  { intros v st0 Hd Hv Hg Ha Hq Hc Hid.
    rewrite decryptedData_setVisible, visible_setVisible.
    split; [done|]. split.
    - intros g Hne. rewrite <- (Hg g Hne). by destruct f, g.
    - split; [done|]. by destruct f. }
  assert (Hdiff : forall id', id' <> id ->
            id' ∈ Page.visible f st ∖ {[id]} <-> id' ∈ Page.visible f st).
  { intros id' Hne. rewrite elem_of_difference, elem_of_singleton. tauto. }
  assert (Hunion : forall id', id' <> id ->
            id' ∈ Page.visible f st ∪ {[id]} <-> id' ∈ Page.visible f st).
  { intros id' Hne. rewrite elem_of_union, elem_of_singleton. tauto. }
  destruct (decide (id ∈ Page.visible f st)) as [Hin|Hout].
  { rewrite toggle_visible by done. eexists _, _, _.
    split; [reflexivity|].
    destruct (Hset (Page.visible f st ∖ {[id]}) st) as (?&?&?&?&?&?);
      try done. }
  destruct (Page.decryptedData st !! id) as [d|] eqn:Hc.
  { rewrite toggle_hidden_cached by (done || (rewrite Hc; by eexists)).
    eexists _, _, _. split; [reflexivity|].
    destruct (Hset (Page.visible f st ∪ {[id]}) st) as (?&?&?&?&?&?);
      try done. }
  rewrite toggle_hidden_fresh by done.
  destruct (decrypt encrypted) as [e|p].
  { eexists _, _, _. split; [reflexivity|]. cbn. repeat split; done. }
  eexists _, _, _. split; [reflexivity|].
  destruct (Hset (Page.visible f st ∪ {[id]})
              (Page.setDecryptedData
                 (<[id:=Decrypted.set f p (Decrypted.mk "" "")]>
                    (Page.decryptedData st)) st))
    as (?&?&?&?&?&?); try done.
  cbn. by apply insert_subseteq.
Qed.

(** X9.  Copying never reveals anything: whether [copyToClipboard] succeeds
    or is rejected, the visibility sets, the cache and the list are as
    before, so every cell shows what it showed; the decrypted text is not
    kept in the cache. *)
Theorem copyToClipboard_never_reveals
    (decrypt : string -> CryptoError + string)
    (text id : string) (st : Page.t) (w : World) :
  exists r st' w',
    MainDashboard.copyToClipboard decrypt text id (st, w) = (r, (st', w'))
    /\ Page.visibleKeys st' = Page.visibleKeys st
    /\ Page.visiblePasswords st' = Page.visiblePasswords st
    /\ Page.decryptedData st' = Page.decryptedData st
    /\ Page.apiKeys st' = Page.apiKeys st
    /\ (forall f k, MainDashboard.cell f st' k = MainDashboard.cell f st k)
    /\ backend w' = backend w.
Proof.
  rewrite copyToClipboard_run.
  destruct (decrypt text) as [e|p];
    [|destruct (clipboardGranted w)];
    eexists _, _, _; (split; [reflexivity|]); repeat split; try done;
    intros [] k; reflexivity.
Qed.

(** X10.  When the clipboard write is refused, [copyToClipboard] is rejected
    after the [decrypt] call: the clipboard keeps its content, the copied
    indicator is not set and no timer is started. *)
Theorem copyToClipboard_clipboard_refused
    (decrypt : string -> CryptoError + string)
    (text id p : string) (st : Page.t) (w : World) :
  decrypt text = inr p ->
  clipboardGranted w = false ->
  exists w',
    MainDashboard.copyToClipboard decrypt text id (st, w)
    = (inl ClipboardExn, (st, w'))
    /\ clipboard w' = clipboard w
    /\ timers w' = timers w
    /\ trace w' = (trace w ++ [CallDecrypt text])%list.
Proof.
  intros Hp Hg. rewrite copyToClipboard_run, Hp, Hg.
  eexists. split; [reflexivity|]. done.
Qed.

Lemma copyToClipboard_clipboard_refused_witness :
  Sample.decrypt "enc:sk-test-123" = inr "sk-test-123"
  /\ clipboardGranted
       (mkWorld (backend Sample.world) [] "old" false [] []) = false
  /\ exists w',
       MainDashboard.copyToClipboard Sample.decrypt "enc:sk-test-123" "key-r1"
         (Sample.keyRevealed,
          mkWorld (backend Sample.world) [] "old" false [] [])
       = (inl ClipboardExn, (Sample.keyRevealed, w'))
       /\ clipboard w' = "old".
Proof.
  split; [reflexivity|]. split; [reflexivity|].
  destruct (copyToClipboard_clipboard_refused Sample.decrypt
              "enc:sk-test-123" "key-r1" "sk-test-123" Sample.keyRevealed
              (mkWorld (backend Sample.world) [] "old" false [] [])
              eq_refl eq_refl)
    as (w' & Hrun & Hc & _).
  exists w'. split; [exact Hrun|exact Hc].
Defined.

(** X11.  The timer of an earlier copy clears the indicator of a later one.
    Copy one secret, let [d] milliseconds pass ([0 < d < 2000]) and copy
    another: the indicator then names the second copy, and it is cleared
    [2000 - d] milliseconds later, when the first timer fires, although the
    second copy's own 2000 ms have not passed. *)
Theorem second_copy_indicator_cleared_early
    (decrypt : string -> CryptoError + string)
    (text1 id1 p1 text2 id2 p2 : string) (st : Page.t) (w : World) (d : N) :
  decrypt text1 = inr p1 ->
  decrypt text2 = inr p2 ->
  clipboardGranted w = true ->
  timers w = [] ->
  (0 < d < 2000)%N ->
  let s1 := snd (MainDashboard.copyToClipboard decrypt text1 id1 (st, w)) in
  let s2 := MainDashboard.elapse d s1 in
  let s3 := snd (MainDashboard.copyToClipboard decrypt text2 id2 s2) in
  Page.copiedId (fst s2) = Some id1
  /\ Page.copiedId (fst s3) = Some id2
  /\ (2000 - d < 2000)%N
  /\ Page.copiedId (fst (MainDashboard.elapse (2000 - d) s3)) = None
  /\ timers (snd (MainDashboard.elapse (2000 - d) s3)) = [(d, ClearCopied)].
Proof.
  intros H1 H2 Hg Ht Hd. cbv zeta.
  rewrite copyToClipboard_run, H1, Hg, Ht. cbn [snd app].
  set (w1 := mkWorld (backend w) (faults w) p1 true [(2000%N, ClearCopied)]
               ((trace w ++ [CallDecrypt text1]) ++ [CallWriteText p1])).
  assert (Hs2 : MainDashboard.elapse d (Page.setCopiedId (Some id1) st, w1)
                = (Page.setCopiedId (Some id1) st,
                   Env.with_timers [((2000 - d)%N, ClearCopied)] w1)).
  { unfold MainDashboard.elapse. cbn [fst snd timers w1 List.filter].
    replace (2000 <=? d)%N with false by (symmetry; apply N.leb_gt; lia).
    reflexivity. }
  rewrite Hs2. split; [done|].
  rewrite copyToClipboard_run, H2. cbn [clipboardGranted fst snd w1
    Env.with_timers timers app].
  split; [done|]. split; [lia|].
  unfold MainDashboard.elapse. cbn [fst snd timers List.filter].
  replace (2000 - d <=? 2000 - d)%N with true by (symmetry; apply N.leb_refl).
  replace (2000 <=? 2000 - d)%N with false by (symmetry; apply N.leb_gt; lia).
  cbn. split; [done|]. do 2 f_equal. lia.
Qed.

Lemma second_copy_indicator_cleared_early_witness :
  Sample.decrypt "enc:sk-test-123" = inr "sk-test-123"
  /\ Sample.decrypt "enc:hunter2" = inr "hunter2"
  /\ clipboardGranted Sample.world = true
  /\ timers Sample.world = []
  /\ (0 < 1500 < 2000)%N
  /\ Page.copiedId
       (fst (MainDashboard.elapse (2000 - 1500)
               (snd (MainDashboard.copyToClipboard Sample.decrypt
                       "enc:hunter2" "pwd-r1"
                       (MainDashboard.elapse 1500
                          (snd (MainDashboard.copyToClipboard Sample.decrypt
                                  "enc:sk-test-123" "key-r1"
                                  (Sample.listed, Sample.world))))))))
     = None.
Proof.
  assert (Hd : (0 < 1500 < 2000)%N) by lia.
  split; [reflexivity|]. split; [reflexivity|]. split; [reflexivity|].
  split; [reflexivity|]. split; [exact Hd|].
  apply (second_copy_indicator_cleared_early Sample.decrypt
           "enc:sk-test-123" "key-r1" "sk-test-123" "enc:hunter2" "pwd-r1"
           "hunter2" Sample.listed Sample.world 1500 eq_refl eq_refl eq_refl
           eq_refl Hd).
Defined.

(** ** Deleting and fetching, further *)

Section DeleteMore.
Import Page MainDashboard.

Lemma select_delete_iff q id b r :
  In r (Backend.select q (Backend.delete id b))
  <-> In r (Backend.select q b) /\ ApiKey.id r <> id.
Proof.
  split.
  - intros H. split; [|by eapply select_delete].
    revert H. rewrite !select_In. unfold Backend.delete at 1.
    cbn [Backend.api_keys]. rewrite List.filter_In.
    change (Backend.owned (Backend.delete id b) r) with (Backend.owned b r).
    tauto.
  - intros [H Hne]. revert H. rewrite !select_In.
    unfold Backend.delete at 1. cbn [Backend.api_keys].
    rewrite List.filter_In.
    change (Backend.owned (Backend.delete id b) r) with (Backend.owned b r).
    intros (Hin & Hown & Hm). repeat split; try done.
    rewrite Hown. cbn. by apply negb_true_iff, String.eqb_neq.
Qed.

Lemma handleDelete_failed (confirm : string -> bool) query id st w :
  confirm "Are you sure you want to delete this API key?" = true ->
  Env.served 0 w = false ->
  handleDelete confirm query id (st, w)
  = (inr tt,
     (st, mkWorld (backend w) (tail (faults w)) (clipboard w)
            (clipboardGranted w) (timers w)
            ((trace w ++ [CallDelete id])
             ++ [CallConsoleError "Error deleting API key:"]))).
Proof.
  intros Hc Hs. unfold handleDelete. rewrite Hc. cbn [negb].
  unfold Env.delete. run. rewrite request_run. run.
  unfold Env.served in Hs. destruct w as [b fs c g ts tr]; cbn in *.
  destruct fs as [|[msg|] fs]; cbn in *; done.
Qed.

End DeleteMore.

(** X12.  When the delete request fails, [handleDelete] only logs the
    error: the table is unchanged, the list is not fetched again and the
    whole component state is as before. *)
Theorem handleDelete_request_failed (confirm : string -> bool) (query : Query)
    (id : string) (st : Page.t) (w : World) :
  confirm "Are you sure you want to delete this API key?" = true ->
  Env.served 0 w = false ->
  exists w',
    MainDashboard.handleDelete confirm query id (st, w) = (inr tt, (st, w'))
    /\ backend w' = backend w
    /\ trace w'
       = (trace w
          ++ [CallDelete id; CallConsoleError "Error deleting API key:"])%list.
Proof.
  intros Hc Hs. rewrite handleDelete_failed by done.
  eexists. split; [reflexivity|]. cbn. by rewrite <- app_assoc.
Qed.

Lemma handleDelete_request_failed_witness :
  Env.served 0
    (mkWorld (backend Sample.stocked) [Some "offline"] "" true [] []) = false
  /\ exists w',
       MainDashboard.handleDelete (fun _ => true) MainDashboard.listQuery "r1"
         (Sample.listed,
          mkWorld (backend Sample.stocked) [Some "offline"] "" true [] [])
       = (inr tt, (Sample.listed, w'))
       /\ backend w' = backend Sample.stocked.
Proof.
  split; [reflexivity|].
  destruct (handleDelete_request_failed (fun _ => true)
              MainDashboard.listQuery "r1" Sample.listed
              (mkWorld (backend Sample.stocked) [Some "offline"] "" true [] [])
              eq_refl eq_refl)
    as (w' & Hrun & Hb & _).
  exists w'. split; [exact Hrun|exact Hb].
Defined.

(** X13.  Deleting a record does not clear what was revealed: whatever the
    answer to the prompt and the outcome of the requests, [handleDelete]
    leaves the visibility sets, the cache of decrypted values and the copied
    indicator as they were, so the plaintext cached for a deleted record
    stays in the component state; the clipboard and the timers are not
    touched either. *)
Theorem handleDelete_keeps_revealed (confirm : string -> bool) (query : Query)
    (id : string) (st : Page.t) (w : World) :
  exists st' w',
    MainDashboard.handleDelete confirm query id (st, w) = (inr tt, (st', w'))
    /\ Page.visibleKeys st' = Page.visibleKeys st
    /\ Page.visiblePasswords st' = Page.visiblePasswords st
    /\ Page.decryptedData st' = Page.decryptedData st
    /\ Page.copiedId st' = Page.copiedId st
    /\ Page.searchQuery st' = Page.searchQuery st
    /\ clipboard w' = clipboard w
    /\ timers w' = timers w.
Proof.
  destruct (confirm "Are you sure you want to delete this API key?") eqn:Hc.
  2:{ exists st, w. split; [|done].
      unfold MainDashboard.handleDelete. by rewrite Hc. }
  destruct (Env.served 0 w) eqn:Hs.
  - rewrite handleDelete_run, fetchApiKeys_run by done.
    cbn [faults backend trace clipboard timers clipboardGranted].
    eexists _, _. split; [reflexivity|].
    destruct (head (tail (faults w))) as [[msg|]|]; done.
  - rewrite handleDelete_failed by done. by eexists _, _.
Qed.

(** X14.  A served deletion removes that record and no other.  In the table
    exactly the signed-in user's rows with this id are gone, and after the
    served re-fetch the displayed list holds exactly the records the list
    query returned before, minus the one with this id. *)
Theorem handleDelete_removes_only_that_record (confirm : string -> bool)
    (query : Query) (id : string) (st : Page.t) (w : World) :
  confirm "Are you sure you want to delete this API key?" = true ->
  Env.served 0 w = true ->
  Env.served 1 w = true ->
  exists st' w',
    MainDashboard.handleDelete confirm query id (st, w) = (inr tt, (st', w'))
    /\ (forall r, In r (Backend.api_keys (backend w')) <->
          In r (Backend.api_keys (backend w))
          /\ ~ (Backend.owned (backend w) r = true /\ ApiKey.id r = id))
    /\ (forall r, In r (Page.apiKeys st') <->
          In r (Backend.select query (backend w)) /\ ApiKey.id r <> id)
    /\ Page.loading st' = false.
Proof.
  intros Hc Hs Hs1. rewrite handleDelete_run, fetchApiKeys_run by done.
  cbn [faults backend trace]. eexists _, _. split; [reflexivity|]. split.
  { intros r. unfold Backend.delete. cbn [Backend.api_keys backend].
    rewrite List.filter_In.
    rewrite negb_true_iff, andb_false_iff.
    destruct (Backend.owned (backend w) r); cbn.
    - destruct (String.eqb_spec (ApiKey.id r) id); intuition congruence.
    - intuition congruence. }
  assert (Hh : match head (tail (faults w)) with
               | Some (Some _) => False | _ => True end).
  { unfold Env.served in Hs1.
    destruct (faults w) as [|o [|[msg|] fs]]; cbn in *; done. }
  destruct (head (tail (faults w))) as [[msg|]|]; [done| |];
    (split; [|done]); intros r; cbn; apply select_delete_iff.
Qed.

Lemma handleDelete_removes_only_that_record_witness :
  Env.served 0 Sample.stocked = true
  /\ Env.served 1 Sample.stocked = true
  /\ exists st' w',
       MainDashboard.handleDelete (fun _ => true) MainDashboard.listQuery "r2"
         (Sample.listed, Sample.stocked) = (inr tt, (st', w'))
       /\ (In Sample.record (Page.apiKeys st'))
       /\ ~ In Sample.other (Page.apiKeys st').
Proof.
  split; [reflexivity|]. split; [reflexivity|].
  destruct (handleDelete_removes_only_that_record (fun _ => true)
              MainDashboard.listQuery "r2" Sample.listed Sample.stocked
              eq_refl eq_refl eq_refl)
    as (st' & w' & Hrun & _ & Hl & _).
  exists st', w'. split; [exact Hrun|]. split.
  - apply Hl. split; [|discriminate]. vm_compute. tauto.
  - intros H. apply Hl in H as [_ H]. by apply H.
Defined.

(** X15.  [fetchApiKeys] never rejects and always ends with the loading
    flag off.  When the request fails it logs the error and keeps the list
    it had; when it is served the list is the query's result: it holds
    exactly the table rows of the signed-in user that match the service
    filter of the page.  The visibility sets and the cache are not
    touched. *)
Theorem fetchApiKeys_outcomes (query : Query) (st : Page.t) (w : World) :
  exists st' w',
    MainDashboard.fetchApiKeys query (st, w) = (inr tt, (st', w'))
    /\ Page.loading st' = false
    /\ Page.visibleKeys st' = Page.visibleKeys st
    /\ Page.visiblePasswords st' = Page.visiblePasswords st
    /\ Page.decryptedData st' = Page.decryptedData st
    /\ backend w' = backend w
    /\ (Env.served 0 w = false ->
        Page.apiKeys st' = Page.apiKeys st
        /\ trace w'
           = (trace w ++ [CallSelect query;
                          CallConsoleError "Error fetching API keys:"])%list)
    /\ (Env.served 0 w = true ->
        trace w' = (trace w ++ [CallSelect query])%list
        /\ forall r, In r (Page.apiKeys st') <->
             In r (Backend.api_keys (backend w))
             /\ Some (ApiKey.user_id r) = Backend.user (backend w)
             /\ (forall s, q_service query = Some s ->
                   ApiKey.service_name r = s)).
Proof.
  assert (Hsel : forall r,
            In r (Backend.select query (backend w)) <->
            In r (Backend.api_keys (backend w))
            /\ Some (ApiKey.user_id r) = Backend.user (backend w)
            /\ (forall s, q_service query = Some s ->
                  ApiKey.service_name r = s)).
  { intros r. rewrite select_In. unfold Backend.owned, Backend.matches.
    destruct (Backend.user (backend w)) as [u|];
      destruct (q_service query) as [s|];
      rewrite ?String.eqb_eq;
      (split; [intros (?&?&?)|intros (?&?&Hq)]);
      repeat split; try done; try congruence;
      try (intros ? [= <-]; done); try (by apply Hq). }
  rewrite fetchApiKeys_run. eexists _, _. split; [reflexivity|].
  unfold Env.served.
  destruct (faults w) as [|[msg|] fs]; cbn;
    repeat split; try done; try (by rewrite <- app_assoc);
    try (by apply Hsel).
Qed.

(** ** Searching and grouping *)

Section ListingFacts.
Import Listing.

Lemma prefix_refl (s : string) : String.prefix s s = true.
Proof.
  induction s as [|c s IH]; cbn; [done|].
  destruct (ascii_dec c c); [done|congruence].
Qed.

Lemma includes_refl (s : string) : Str.includes s s = true.
Proof. destruct s; cbn; [done|]. rewrite prefix_refl. by destruct (ascii_dec _ _). Qed.

Lemma ofService_app s l l' :
  ofService s (l ++ l') = (ofService s l ++ ofService s l')%list.
Proof. apply List.filter_app. Qed.

Lemma groupStep_grouped consumed groups key :
  ~ In (ApiKey.service_name key) prototypeKeys ->
  grouped consumed groups ->
  exists groups',
    groupStep groups key = Some groups'
    /\ grouped (consumed ++ [key]) groups'.
Proof.
  intros Hp Hg. unfold groupStep. cbv zeta.
  rewrite bool_decide_eq_false_2 by (by rewrite list_elem_of_In).
  assert (Hs : forall s, s <> ApiKey.service_name key ->
            ofService s (consumed ++ [key]) = ofService s consumed).
  { intros s Hne. rewrite ofService_app. cbn.
    destruct (String.eqb_spec (ApiKey.service_name key) s);
      [congruence|apply app_nil_r]. }
  assert (Hk : ofService (ApiKey.service_name key) (consumed ++ [key])
               = (ofService (ApiKey.service_name key) consumed ++ [key])%list).
  { rewrite ofService_app. cbn. by rewrite String.eqb_refl. }
  pose proof (Hg (ApiKey.service_name key)) as Hl.
  destruct (groups !! ApiKey.service_name key) as [l|] eqn:E;
    (eexists; split; [reflexivity|]); intros s;
    (destruct (decide (s = ApiKey.service_name key)) as [->|Hne];
     [rewrite lookup_insert_eq, Hk
     |rewrite lookup_insert_ne, (Hs s Hne) by done; apply Hg]).
  - destruct (ofService _ consumed) as [|x l']; [done|].
    injection Hl as ->. done.
  - by destruct (ofService _ consumed).
Qed.

Lemma reduce_grouped keys : forall consumed groups,
  (forall key, In key keys -> ~ In (ApiKey.service_name key) prototypeKeys) ->
  grouped consumed groups ->
  exists groups',
    reduce keys groups = Some groups' /\ grouped (consumed ++ keys) groups'.
Proof.
  induction keys as [|key keys IH]; intros consumed groups Hp Hg.
  - exists groups. by rewrite app_nil_r.
  - destruct (groupStep_grouped consumed groups key) as (g1 & H1 & Hg1);
      [apply Hp; by left|done|].
    destruct (IH (consumed ++ [key])%list g1) as (g2 & H2 & Hg2);
      [intros k Hk; apply Hp; by right|done|].
    exists g2. cbn. rewrite H1. split; [done|].
    by rewrite <- app_assoc in Hg2.
Qed.

Lemma reduce_prototype keys : forall groups,
  (exists key, In key keys /\ In (ApiKey.service_name key) prototypeKeys) ->
  reduce keys groups = None.
Proof.
  induction keys as [|key keys IH]; intros groups (k & Hin & Hp);
    [destruct Hin|].
  cbn. unfold groupStep at 1. cbv zeta.
  destruct (bool_decide (ApiKey.service_name key ∈ prototypeKeys)) eqn:E;
    [done|].
  apply bool_decide_eq_false_1 in E. rewrite list_elem_of_In in E.
  destruct Hin as [->|Hin]; [done|].
  destruct (groups !! ApiKey.service_name key); apply IH; eauto.
Qed.

Lemma websiteGroups_built keys :
  (forall key, In key keys -> ~ In (ApiKey.service_name key) prototypeKeys) ->
  exists groups, websiteGroups keys = Some groups.
Proof.
  intros Hp. destruct (reduce_grouped keys [] ∅ Hp) as (groups & Hr & _).
  - intros s. apply lookup_empty.
  - by exists groups.
Qed.

End ListingFacts.

(** X16.  Grouping the listed records by service: when no service name is a
    property name inherited from [Object.prototype], [websiteGroups] is
    built, and the group of a service holds exactly the listed records of
    that service, in list order; a service without records has no group, so
    no group is empty. *)
Theorem websiteGroups_by_service (keys : list ApiKey.t) :
  (forall key, In key keys ->
     ~ In (ApiKey.service_name key) Listing.prototypeKeys) ->
  exists groups,
    Listing.websiteGroups keys = Some groups
    /\ (forall s,
          groups !! s
          = match Listing.ofService s keys with [] => None | l => Some l end)
    /\ (forall s l, groups !! s = Some l -> l <> [])
    /\ (groups = ∅ <-> keys = []).
Proof.
  intros Hp.
  destruct (reduce_grouped keys [] ∅ Hp) as (groups & Hr & Hg).
  { intros s. apply lookup_empty. }
  cbn [app] in Hg. exists groups. split; [done|]. split; [done|]. split.
  - intros s l Hl. rewrite Hg in Hl.
    destruct (Listing.ofService s keys); [done|]. by injection Hl as <-.
  - split.
    + intros ->. destruct keys as [|key keys]; [done|].
      specialize (Hg (ApiKey.service_name key)). rewrite lookup_empty in Hg.
      cbn in Hg. by rewrite String.eqb_refl in Hg.
    + intros ->. apply map_eq. intros s. by rewrite Hg, lookup_empty.
Qed.

Lemma websiteGroups_by_service_witness :
  exists groups,
    Listing.websiteGroups [Sample.record; Sample.other] = Some groups
    /\ groups !! "OpenAI" = Some [Sample.record]
    /\ groups !! "Tavily" = Some [Sample.other]
    /\ groups !! "GitHub" = None.
Proof.
  destruct (websiteGroups_by_service [Sample.record; Sample.other])
    as (groups & Hr & Hg & _).
  { intros key [<-|[<-|[]]]; cbn;
      intros H; repeat destruct H as [H|H]; discriminate || exact H. }
  exists groups. split; [exact Hr|].
  rewrite !Hg. repeat split; reflexivity.
Defined.

(** X17.  The grouping fails exactly on inherited names: [websiteGroups]
    throws its TypeError if and only if some listed record's service name is
    a property name inherited from [Object.prototype], such as constructor
    or toString. *)
Theorem websiteGroups_fails_on_prototype_names (keys : list ApiKey.t) :
  Listing.websiteGroups keys = None
  <-> exists key, In key keys
                  /\ In (ApiKey.service_name key) Listing.prototypeKeys.
Proof.
  split; [|apply reduce_prototype].
  intros Hnone.
  destruct (List.Exists_dec
              (fun key => In (ApiKey.service_name key) Listing.prototypeKeys)
              keys) as [He|Hn].
  { intros key. apply (In_dec string_dec). }
  - apply List.Exists_exists in He. exact He.
  - destruct (websiteGroups_built keys) as (g & Hg); [|congruence].
    intros key Hin Hp. apply Hn, List.Exists_exists. eauto.
Qed.

(** X18.  Searching the dashboard is case-insensitive and keeps the order:
    the listed records are a sub-sequence of the fetched ones, an empty
    search text lists them all, two non-empty search texts with the same
    lower-case form list the same records, and a record one of whose service
    name, email or notes is the search text itself is always listed. *)
Theorem filteredKeys_search (toLowerCase : string -> string) (st : Page.t) :
  sublist (Listing.filteredKeys toLowerCase st) (Page.apiKeys st)
  /\ (Page.searchQuery st = "" ->
      Listing.filteredKeys toLowerCase st = Page.apiKeys st)
  /\ (forall q q' l,
        q <> "" -> q' <> "" -> toLowerCase q = toLowerCase q' ->
        List.filter (Listing.matchesSearch toLowerCase q) l
        = List.filter (Listing.matchesSearch toLowerCase q') l)
  /\ (forall key,
        In key (Page.apiKeys st) ->
        ApiKey.service_name key = Page.searchQuery st
        \/ ApiKey.email_username key = Page.searchQuery st
        \/ ApiKey.notes key = Page.searchQuery st ->
        In key (Listing.filteredKeys toLowerCase st)).
Proof.
  unfold Listing.filteredKeys. split; [|split; [|split]].
  - induction (Page.apiKeys st) as [|k l IH]; cbn; [done|].
    destruct (Listing.matchesSearch _ _ k);
      [by apply sublist_skip|by apply sublist_cons].
  - intros ->. induction (Page.apiKeys st) as [|k l IH]; cbn; [done|].
    by f_equal.
  - intros q q' l Hq Hq' Hl. apply List.filter_ext. intros key.
    unfold Listing.matchesSearch. rewrite Hl.
    by destruct q, q'.
  - intros key Hin Hm. apply List.filter_In. split; [done|].
    unfold Listing.matchesSearch.
    destruct Hm as [-> | [-> | ->]]; rewrite includes_refl;
      by rewrite ?orb_true_r.
Qed.

(** ** Navigation bar *)

(** X19.  At most one entry of the navigation bar is highlighted, whatever
    the location: if two entries are active they are the same entry.  On a
    service page (a path starting with /website) the highlighted entry is
    the dashboard. *)
Theorem navigation_one_active (pathname : string) :
  (forall p q,
     In p Navigation.navPaths -> In q Navigation.navPaths ->
     Navigation.isActive pathname p = true ->
     Navigation.isActive pathname q = true ->
     p = q)
  /\ (Str.startsWith pathname "/website" = true ->
      forall p, In p Navigation.navPaths ->
        Navigation.isActive pathname p = true <-> p = "/dashboard").
Proof.
  assert (Hs : Navigation.isActive pathname "/settings"
               = String.eqb pathname "/settings")
    by (unfold Navigation.isActive; cbn; apply orb_false_r).
  assert (Hd : Navigation.isActive pathname "/docs"
               = String.eqb pathname "/docs")
    by (unfold Navigation.isActive; cbn; apply orb_false_r).
  assert (Hb : Navigation.isActive pathname "/dashboard" = true ->
               pathname <> "/settings" /\ pathname <> "/docs").
  { unfold Navigation.isActive. intros H. split; intros ->; discriminate H. }
  split.
  - intros p q [<-|[<-|[<-|[]]]] [<-|[<-|[<-|[]]]]; try done;
      rewrite ?Hs, ?Hd, ?String.eqb_eq; intros H1 H2;
      try (apply Hb in H1); try (apply Hb in H2); subst;
      try tauto; try discriminate.
  - intros Hw p [<-|[<-|[<-|[]]]].
    + unfold Navigation.isActive. rewrite Hw. cbn. by rewrite orb_true_r.
    + rewrite Hs, String.eqb_eq. split; [|done]. intros ->. discriminate Hw.
    + rewrite Hd, String.eqb_eq. split; [|done]. intros ->. discriminate Hw.
Qed.

Lemma navigation_one_active_witness :
  Navigation.isActive "/website/OpenAI" "/dashboard" = true
  /\ Navigation.isActive "/website/OpenAI" "/settings" = false
  /\ Navigation.isActive "/website/OpenAI" "/docs" = false.
Proof.
  destruct (navigation_one_active "/website/OpenAI") as [_ H].
  split; [|split].
  - apply (H eq_refl "/dashboard"); [by left|reflexivity].
  - reflexivity.
  - reflexivity.
Defined.

(** X20.  The theme button walks through light, dark, emerald and back:
    every press changes the theme, the new theme is one of the three, and
    from any of the three a third press returns to it. *)
Theorem cycleTheme_cycle (theme : string) :
  Navigation.cycleTheme theme <> theme
  /\ In (Navigation.cycleTheme theme) ["light"; "dark"; "emerald"]
  /\ (In theme ["light"; "dark"; "emerald"] ->
      Navigation.cycleTheme
        (Navigation.cycleTheme (Navigation.cycleTheme theme)) = theme).
Proof.
  unfold Navigation.cycleTheme.
  destruct (String.eqb_spec theme "light") as [->|Hl]; cbn.
  { split; [done|]. split; tauto. }
  destruct (String.eqb_spec theme "dark") as [->|Hd]; cbn.
  { split; [done|]. split; tauto. }
  split; [congruence|]. split; [tauto|].
  intros [H|[H|[H|[]]]]; congruence.
Qed.

(** ** Dashboard tags *)

Section TagFacts.
Import Dashboard.
Variable le : string -> string -> bool.

Lemma add_In tags x t : In t (add tags x) <-> In t tags \/ t = x.
Proof.
  unfold add. case_bool_decide as Hx.
  - apply list_elem_of_In in Hx. split; [tauto|]. intros [?| ->]; done.
  - rewrite in_app_iff. cbn. intuition.
Qed.

Lemma add_NoDup tags x : NoDup tags -> NoDup (add tags x).
Proof.
  intros Hd. unfold add. case_bool_decide as Hx; [done|].
  apply NoDup_app. split; [done|]. split.
  - intros y Hy [->|[]%elem_of_nil]%elem_of_cons. done.
  - apply NoDup_singleton.
Qed.

Lemma foldl_add_In l : forall tags t,
  In t (foldl add tags l) <-> In t tags \/ In t l.
Proof.
  induction l as [|x l IH]; intros tags t; cbn; [tauto|].
  rewrite IH, add_In. intuition.
Qed.

Lemma foldl_add_NoDup l : forall tags,
  NoDup tags -> NoDup (foldl add tags l).
Proof.
  induction l as [|x l IH]; intros tags Hd; cbn; [done|].
  by apply IH, add_NoDup.
Qed.

Lemma collect_from_In data : forall tags t,
  In t (foldl (fun tags key => foldl add tags (ApiKey.tags key)) tags data)
  <-> In t tags \/ exists key, In key data /\ In t (ApiKey.tags key).
Proof.
  induction data as [|k data IH]; intros tags t; cbn.
  - split; [tauto|]. intros [?|(?&[]&_)]. done.
  - rewrite IH, foldl_add_In. split.
    + intros [[?|?]|(key & ? & ?)]; eauto 6.
    + intros [?|(key & [<-|?] & ?)]; eauto 6.
Qed.

Lemma collect_from_NoDup data : forall tags,
  NoDup tags ->
  NoDup (foldl (fun tags key => foldl add tags (ApiKey.tags key)) tags data).
Proof.
  induction data as [|k data IH]; intros tags Hd; cbn; [done|].
  by apply IH, foldl_add_NoDup.
Qed.

Lemma insertTag_In x l t : In t (insertTag le x l) <-> t = x \/ In t l.
Proof.
  induction l as [|y l IH]; cbn; [intuition|].
  destruct (le x y); cbn; [intuition|]. rewrite IH. intuition.
Qed.

Lemma sort_In l t : In t (sort le l) <-> In t l.
Proof.
  unfold sort. induction l as [|x l IH]; cbn; [done|].
  rewrite insertTag_In, IH. intuition.
Qed.

Lemma insertTag_NoDup x l :
  ~ In x l -> NoDup l -> NoDup (insertTag le x l).
Proof.
  induction l as [|y l IH]; cbn; intros Hx Hd.
  - apply NoDup_singleton.
  - destruct (le x y).
    + apply NoDup_cons. split; [|done].
      rewrite list_elem_of_In. cbn. tauto.
    + apply NoDup_cons in Hd as [Hy Hd]. apply NoDup_cons. split.
      * rewrite list_elem_of_In, insertTag_In.
        rewrite list_elem_of_In in Hy. intros [->|?]; tauto.
      * apply IH; tauto.
Qed.

Lemma sort_NoDup l : NoDup l -> NoDup (sort le l).
Proof.
  unfold sort. induction l as [|x l IH]; cbn; intros Hd; [done|].
  apply NoDup_cons in Hd as [Hx Hd]. apply insertTag_NoDup.
  - fold (sort le l). rewrite sort_In. by rewrite <- list_elem_of_In.
  - by apply IH.
Qed.

(** The tag list computed by a fetch matches the fetched records. *)
Lemma fetched_tags_in_sync data st :
  tagsInSync (setAllTags (sort le (collectTags data)) (setApiKeys data st)).
Proof.
  split; cbn.
  - apply sort_NoDup, collect_from_NoDup, NoDup_nil_2.
  - intros tag. rewrite sort_In. unfold collectTags.
    rewrite collect_from_In. cbn. tauto.
Qed.

Lemma dashboard_fetch_run st w :
  fetchApiKeys le (st, w)
  = (inr tt,
     (match head (faults w) with
      | Some (Some _) => setLoading false (setLoading true st)
      | _ =>
          setLoading false
            (setAllTags (sort le (collectTags
                                    (Backend.select listQuery (backend w))))
               (setApiKeys (Backend.select listQuery (backend w))
                  (setLoading true st)))
      end,
      mkWorld (backend w) (tail (faults w)) (clipboard w)
        (clipboardGranted w) (timers w)
        (match head (faults w) with
         | Some (Some _) =>
             (trace w ++ [CallSelect listQuery])
             ++ [CallConsoleError "Error fetching API keys:"]
         | _ => trace w ++ [CallSelect listQuery]
         end))).
Proof.
  unfold fetchApiKeys, Env.select. run. rewrite request_run. run.
  destruct w as [b fs c g ts tr]; cbn.
  destruct fs as [|[msg|] fs]; cbn; done.
Qed.

Lemma tagsInSync_same st st' :
  apiKeys st' = apiKeys st -> allTags st' = allTags st ->
  tagsInSync st -> tagsInSync st'.
Proof. unfold tagsInSync. by intros -> ->. Qed.

Lemma fetch_keeps_sync st w :
  tagsInSync st -> tagsInSync (fst (snd (fetchApiKeys le (st, w)))).
Proof.
  intros Hs. rewrite dashboard_fetch_run. cbn [fst snd].
  destruct (head (faults w)) as [[msg|]|].
  - by apply (tagsInSync_same st).
  - eapply tagsInSync_same;
      [| |apply (fetched_tags_in_sync
                   (Backend.select listQuery (backend w))
                   (setLoading true st))]; done.
  - eapply tagsInSync_same;
      [| |apply (fetched_tags_in_sync
                   (Backend.select listQuery (backend w))
                   (setLoading true st))]; done.
Qed.

Variable confirm : string -> bool.

Lemma delete_keeps_sync id st w :
  tagsInSync st -> tagsInSync (fst (snd (handleDelete confirm le id (st, w)))).
Proof.
  intros Hs. unfold handleDelete.
  destruct (confirm _); cbn [negb]; [|done].
  unfold Env.delete. run. rewrite request_run. run.
  cbn [faults].
  destruct (faults w) as [|[msg|] fs]; cbn [head tail default]; run;
    first [exact Hs | by apply fetch_keeps_sync].
Qed.

Lemma handle_keeps_sync e st w :
  tagsInSync st -> tagsInSync (fst (snd (handle confirm le e (st, w)))).
Proof.
  intros Hs. destruct e; cbn [handle]; try done.
  - by apply fetch_keeps_sync.
  - by apply delete_keeps_sync.
  - unfold handleModalClose. run. by apply fetch_keeps_sync.
Qed.

Lemma run_keeps_sync events : forall s,
  tagsInSync (fst s) -> tagsInSync (fst (run confirm le events s)).
Proof.
  induction events as [|e events IH]; intros [st w] Hs; [done|].
  cbn [run foldl]. apply IH.
  destruct (handle confirm le e (st, w)) as [r [st' w']] eqn:E.
  pose proof (handle_keeps_sync e st w Hs) as H. by rewrite E in H.
Qed.

End TagFacts.

(** X21.  The tag filter of the dashboard always matches the list.  After
    any sequence of events (mounting, opening and closing the modal,
    deleting, typing a search, choosing a tag, switching dark mode), with
    any answers to the prompts and any request outcomes, the offered tags
    are exactly the tags of the listed records, each offered once. *)
Theorem dashboard_tags_in_sync (confirm : string -> bool)
    (le : string -> string -> bool) (events : list Dashboard.Event)
    (w : World) :
  Dashboard.tagsInSync
    (fst (Dashboard.run confirm le events (Dashboard.initial, w))).
Proof.
  apply run_keeps_sync. split; cbn; [apply NoDup_nil_2|].
  intros tag. split; [done|]. by intros (? & [] & _).
Qed.

(** X22.  Every tag the dashboard offers finds something: with the tag list
    in step with the list and an empty search text, choosing an offered tag
    lists at least one record, and every listed record carries the tag
    (unless the tag is the empty string, which stands for all tags). *)
Theorem offered_tag_lists_records (toLowerCase : string -> string)
    (st : Dashboard.State) (tag : string) :
  Dashboard.tagsInSync st ->
  In tag (Dashboard.allTags st) ->
  Dashboard.searchQuery st = "" ->
  Dashboard.filteredKeys toLowerCase (Dashboard.setSelectedTag tag st) <> []
  /\ (tag <> "" ->
      forall key,
        In key (Dashboard.filteredKeys toLowerCase
                  (Dashboard.setSelectedTag tag st)) ->
        In tag (ApiKey.tags key)).
Proof.
  intros [_ Hsync] Hin Hq. apply Hsync in Hin as (key & Hkey & Htag).
  unfold Dashboard.filteredKeys. cbn [Dashboard.apiKeys Dashboard.setSelectedTag].
  split.
  - assert (Hk : In key (List.filter
                           (Dashboard.matches toLowerCase
                              (Dashboard.setSelectedTag tag st))
                           (Dashboard.apiKeys st))).
    { apply List.filter_In. split; [done|]. unfold Dashboard.matches.
      cbn. rewrite Hq. cbn.
      rewrite (bool_decide_eq_true_2 _ (proj2 (list_elem_of_In _ _) Htag)).
      by rewrite orb_true_r. }
    intros E. by rewrite E in Hk.
  - intros Hne k [_ Hm]%List.filter_In. unfold Dashboard.matches in Hm.
    cbn in Hm. rewrite Hq in Hm. cbn in Hm.
    destruct tag; [done|]. cbn in Hm.
    apply bool_decide_eq_true_1 in Hm. by apply list_elem_of_In.
Qed.

Lemma offered_tag_lists_records_witness :
  Dashboard.tagsInSync SampleTags.dashboard
  /\ Dashboard.allTags SampleTags.dashboard = ["ai"; "work"]
  /\ Dashboard.filteredKeys (fun s => s)
       (Dashboard.setSelectedTag "work" SampleTags.dashboard) <> [].
Proof.
  assert (Hs : Dashboard.tagsInSync SampleTags.dashboard)
    by exact (fetched_tags_in_sync String.leb
                [SampleTags.first; SampleTags.second] Dashboard.initial).
  split; [exact Hs|]. split; [reflexivity|].
  apply (offered_tag_lists_records (fun s => s) SampleTags.dashboard "work");
    [exact Hs|vm_compute; right; left; reflexivity|reflexivity].
Defined.
